(** * SherrifHUD: a shallow embedding of QT_HUD_UI.cpp

    The program is one C++ file over Qt: a [DataStreamer] whose
    [startStreaming] launches a thread that emits "Data update: N" once a
    second, a [SimpleUI] widget whose constructor builds a frameless window
    with five labels, and a [main] that shows that window.

    - [Int]      : the C++ [int] of the loop counter, 32 bits, wrap-around.
    - [QString]  : [QString::arg] and the decimal rendering it performs.
    - [Streamer] : the body of the lambda handed to [QThread::create], as a
                   small-step machine over its program points, and the
                   effects it performs ([emit], [sleep_for]).
    - [UI]       : the Qt objects the constructor allocates and mutates, as a
                   heap with a state monad, and the constructor itself.
    - [Program]  : the process: windows, streamers with their signal
                   connections, threads; [main]. *)

From Stdlib Require Import ZArith String Ascii List DecimalString DecimalZ Lia.
From stdpp Require Import gmap strings list.

Local Open Scope Z_scope.

(** ** The C++ [int] *)

Module Int.

Definition INT_MAX : Z := 2 ^ 31 - 1.
Definition INT_MIN : Z := - 2 ^ 31.

(** The value of a 32-bit two's complement [int] holding [z]. *)
Definition wrap (z : Z) : Z := (z + 2 ^ 31) mod 2 ^ 32 - 2 ^ 31.

Definition in_range (z : Z) : Prop := INT_MIN <= z <= INT_MAX.

(** [x++]: the value of the expression and the new value of [x]. *)
Definition post_incr (x : Z) : Z * Z := (x, wrap (x + 1)).

End Int.

(** ** QString *)

Module QString.

(** [QString::number(n)], base 10: a minus sign for negative numbers, no
    leading zeros, "0" for zero. *)
Definition number (n : Z) : string := NilEmpty.string_of_int (Z.to_int n).

Definition digitValue (c : ascii) : option nat :=
  let n := nat_of_ascii c in
  if (48 <=? n)%nat && (n <=? 57)%nat then Some (n - 48)%nat else None.

(** A format string is a run of literal characters and place markers
    [%1] .. [%99]; a marker keeps the text it was read from. The [%L]
    form of a marker is not used by this program and is read as
    literal text. *)
Inductive piece : Type :=
| Lit (c : ascii)
| Marker (n : nat) (raw : string).

Fixpoint pieces (s : string) : list piece :=
  match s with
  | EmptyString => []
  | String c rest =>
      if Ascii.eqb c "%" then
        match rest with
        | EmptyString => [Lit c]
        | String d1 rest1 =>
            match digitValue d1 with
            | None => Lit c :: pieces rest
            | Some v1 =>
                match rest1 with
                | EmptyString => [Marker v1 (String c (String d1 EmptyString))]
                | String d2 rest2 =>
                    match digitValue d2 with
                    | None =>
                        Marker v1 (String c (String d1 EmptyString))
                          :: pieces rest1
                    | Some v2 =>
                        Marker (10 * v1 + v2)
                               (String c (String d1 (String d2 EmptyString)))
                          :: pieces rest2
                    end
                end
            end
        end
      else Lit c :: pieces rest
  end.

Fixpoint lowest (ps : list piece) : option nat :=
  match ps with
  | [] => None
  | Lit _ :: ps' => lowest ps'
  | Marker n _ :: ps' =>
      match lowest ps' with
      | None => Some n
      | Some m => Some (Nat.min n m)
      end
  end.

Fixpoint fill (m : nat) (a : string) (ps : list piece) : string :=
  match ps with
  | [] => EmptyString
  | Lit c :: ps' => String c (fill m a ps')
  | Marker n raw :: ps' =>
      if Nat.eqb n m then a +:+ fill m a ps' else raw +:+ fill m a ps'
  end.

(** [fmt.arg(a)]: every occurrence of the lowest-numbered place marker of
    [fmt] is replaced by [a]; a format without marker is returned as it
    is. *)
Definition arg (fmt a : string) : string :=
  let ps := pieces fmt in
  match lowest ps with
  | None => fmt
  | Some m => fill m a ps
  end.

(** [fmt.arg(n)] for an [int n]: field width 0, base 10. *)
Definition arg_int (fmt : string) (n : Z) : string := arg fmt (number n).

End QString.

(** ** The streaming thread *)

Module Streamer.

(** What the thread does to the outside: [emit dataChanged(data)] and
    [std::this_thread::sleep_for(d)], the duration in milliseconds. *)
Inductive effect : Type :=
| Emit (data : string)
| Sleep (ms : Z).

(** [std::chrono::seconds(n)], in milliseconds. *)
Definition seconds (n : Z) : Z := 1000 * n.

(** Program points of the lambda's body:
<<
    int counter = 0;
    while (true) {                                             // AtWhile
        QString data = QString("Data update: %1").arg(counter++);  // AtArg
        emit dataChanged(data);                                // AtEmit
        std::this_thread::sleep_for(std::chrono::seconds(1));  // AtSleep
    }
                                                               // AfterLoop
>>
*)
Inductive pc : Type := AtWhile | AtArg | AtEmit | AtSleep | AfterLoop.

#[global] Instance pc_eq_dec : EqDecision pc.
Proof. solve_decision. Defined.

Record thread : Type := mkThread {
  at_pc : pc;
  counter : Z;
  data : string
}.

Definition format : string := "Data update: %1".

(** The condition of the [while]. *)
Definition loop_condition (t : thread) : bool := true.

Section Body.

(** The argument of [sleep_for]; the source passes [seconds 1]. *)
Variable delay : Z.

(** One statement of the body. [None]: the lambda has returned. *)
Definition step (t : thread) : option (option effect * thread) :=
  match at_pc t with
  | AtWhile =>
      if loop_condition t
      then Some (None, mkThread AtArg (counter t) (data t))
      else Some (None, mkThread AfterLoop (counter t) (data t))
  | AtArg =>
      let '(v, c') := Int.post_incr (counter t) in
      Some (None, mkThread AtEmit c' (QString.arg_int format v))
  | AtEmit =>
      Some (Some (Emit (data t)), mkThread AtSleep (counter t) (data t))
  | AtSleep =>
      Some (Some (Sleep delay), mkThread AtWhile (counter t) (data t))
  | AfterLoop => None
  end.

Definition cons_effect (o : option effect) (l : list effect) : list effect :=
  match o with Some e => e :: l | None => l end.

(** At most [n] statements from [t]: the effects in order, and the state
    reached. *)
Fixpoint run (n : nat) (t : thread) : list effect * thread :=
  match n with
  | O => ([], t)
  | S n' =>
      match step t with
      | None => ([], t)
      | Some (o, t') =>
          let '(l, t'') := run n' t' in (cons_effect o l, t'')
      end
  end.

End Body.

(** The state in which [QThread::start] enters the lambda: [counter = 0],
    [data] not yet declared. *)
Definition spawn : thread := mkThread AtWhile 0 EmptyString.

(** The delay of the source. *)
Definition DELAY : Z := seconds 1.

Definition emitted (l : list effect) : list string :=
  omap (fun e => match e with Emit d => Some d | Sleep _ => None end) l.

Definition is_emit (e : effect) : bool :=
  match e with Emit _ => true | Sleep _ => false end.

(** Logical time: the clock moves only while the thread sleeps, by the
    duration asked for. [timed now l] stamps every emission with the
    logical time at which it happens. *)
Fixpoint timed (now : Z) (l : list effect) : list (Z * string) :=
  match l with
  | [] => []
  | Emit d :: l' => (now, d) :: timed now l'
  | Sleep ms :: l' => timed (now + ms) l'
  end.

(** The emissions that have happened by logical time [t]. *)
Definition emitted_by (t : Z) (l : list effect) : list string :=
  snd <$> filter (fun p => fst p <= t) (timed 0 l).

(** The payload with sequence number [n]. *)
Definition payload (n : Z) : string := "Data update: " +:+ QString.number n.

(** The states the thread goes through. *)
Inductive reachable (delay : Z) : thread -> Prop :=
| reach_spawn : reachable delay spawn
| reach_step t o t' :
    reachable delay t -> step delay t = Some (o, t') -> reachable delay t'.

(** The number the [k]-th iteration hands to [arg] (iterations counted from
    0): the value of [counter] when that iteration begins. *)
Definition seqno (k : nat) : Z := counter (snd (run DELAY (4 * k) spawn)).

(** The [k]-th emission of the thread (counted from 0), observed on a run
    of [k + 1] iterations. *)
Definition emission (k : nat) : option string :=
  emitted (fst (run DELAY (4 * S k) spawn)) !! k.

(** Iterations [k0], ..., [k0 + n - 1] written out: an emission of the
    number the counter holds, then a sleep. *)
Definition beats (delay : Z) (k0 n : nat) : list effect :=
  flat_map (fun k => [Emit (payload (Int.wrap (Z.of_nat k))); Sleep delay])
           (seq k0 n).

End Streamer.

(** ** The widgets *)

Module UI.

(** A pointer to a Qt object: its address in the heap. *)
Abbreviation ptr := nat (only parsing).

(** The double quote, for the rich text of the labels. *)
Definition dq : string := String (ascii_of_nat 34) EmptyString.

(** *** Qt values *)

(** [Qt::WindowFlags] is a bit mask. *)
Definition Widget : Z := 0.
Definition FramelessWindowHint : Z := 0x800.

(** [QFlags::testFlag]. *)
Definition testFlag (flags f : Z) : bool :=
  (Z.land flags f =? f) && (negb (f =? 0) || (flags =? f)).

(** [Qt::WidgetAttribute], by its enumeration value. *)
Definition WA_TranslucentBackground : nat := 120.

Inductive Alignment : Type := AlignLeftVCenter | AlignCenter.

(** [pointSize = None]: the point size of the application's default
    font, which [QFont()] takes. *)
Record QFont : Type := mkFont {
  pointSize : option Z;
  underline : bool
}.

Definition QFont_default : QFont := mkFont None false.
Definition setPointSize (n : Z) (f : QFont) : QFont :=
  mkFont (Some n) (underline f).
Definition setUnderline (b : bool) (f : QFont) : QFont :=
  mkFont (pointSize f) b.

(** [&free] where a [bool] is expected: the address of a function is not
    null, so the conversion gives [true]. *)
Definition address_of_free : bool := true.

(** A [QPixmap], by the file it was asked to load. *)
Definition QPixmap : Type := string.

Record QLabel : Type := mkLabel {
  fixedSize : option (Z * Z);
  font : QFont;
  text : string;
  alignment : Alignment;
  pixmap : option QPixmap
}.

Definition QLabel_default : QLabel :=
  mkLabel None QFont_default EmptyString AlignLeftVCenter None.

Inductive Direction : Type := Horizontal | Vertical.

Inductive item : Type :=
| Stretch
| ItemWidget (w : ptr)
| ItemLayout (l : ptr).

Record QBoxLayout : Type := mkLayout {
  direction : Direction;
  items : list item
}.

Record QWidget : Type := mkWidget {
  windowTitle : string;
  size : Z * Z;
  styleSheet : string;
  attributes : gset nat;
  windowFlags : Z;
  layout : option ptr;
  visible : bool
}.

Definition QWidget_default : QWidget :=
  mkWidget EmptyString (640, 480) EmptyString ∅ Widget None false.

Definition testAttribute (a : nat) (w : QWidget) : bool :=
  bool_decide (a ∈ attributes w).

(** *** The heap of Qt objects *)

Inductive object : Type :=
| ObjWidget (w : QWidget)
| ObjLabel (l : QLabel)
| ObjLayout (l : QBoxLayout)
| ObjFont (f : QFont).

Record heap : Type := mkHeap {
  objects : gmap ptr object;
  next : ptr
}.

Definition empty_heap : heap := mkHeap ∅ 0%nat.

Definition M (A : Type) : Type := heap -> A * heap.

#[global] Instance M_ret : MRet M := fun A (a : A) h => (a, h).
#[global] Instance M_bind : MBind M :=
  fun A B (k : A -> M B) (c : M A) h => let '(a, h') := c h in k a h'.

(** [new T(...)]. *)
Definition new (o : object) : M ptr :=
  fun h => (next h, mkHeap (<[next h := o]> (objects h)) (S (next h))).

Definition modify (p : ptr) (f : object -> object) : M unit :=
  fun h => (tt, mkHeap (alter f p (objects h)) (next h)).

Definition on_widget (f : QWidget -> QWidget) (o : object) : object :=
  match o with ObjWidget w => ObjWidget (f w) | _ => o end.
Definition on_label (f : QLabel -> QLabel) (o : object) : object :=
  match o with ObjLabel l => ObjLabel (f l) | _ => o end.
Definition on_layout (f : QBoxLayout -> QBoxLayout) (o : object) : object :=
  match o with ObjLayout l => ObjLayout (f l) | _ => o end.

Definition get_widget (h : heap) (p : ptr) : option QWidget :=
  match objects h !! p with Some (ObjWidget w) => Some w | _ => None end.
Definition get_label (h : heap) (p : ptr) : option QLabel :=
  match objects h !! p with Some (ObjLabel l) => Some l | _ => None end.
Definition get_layout (h : heap) (p : ptr) : option QBoxLayout :=
  match objects h !! p with Some (ObjLayout l) => Some l | _ => None end.
Definition get_font (h : heap) (p : ptr) : option QFont :=
  match objects h !! p with Some (ObjFont f) => Some f | _ => None end.

(** *** QWidget *)

Definition setWindowTitle (this : ptr) (s : string) : M unit :=
  modify this (on_widget (fun w =>
    mkWidget s (size w) (styleSheet w) (attributes w) (windowFlags w)
             (layout w) (visible w))).

Definition resize (this : ptr) (w0 h0 : Z) : M unit :=
  modify this (on_widget (fun w =>
    mkWidget (windowTitle w) (w0, h0) (styleSheet w) (attributes w)
             (windowFlags w) (layout w) (visible w))).

Definition setStyleSheet (this : ptr) (s : string) : M unit :=
  modify this (on_widget (fun w =>
    mkWidget (windowTitle w) (size w) s (attributes w) (windowFlags w)
             (layout w) (visible w))).

(** [setAttribute(a)], the second argument defaulted to [true]. *)
Definition setAttribute (this : ptr) (a : nat) : M unit :=
  modify this (on_widget (fun w =>
    mkWidget (windowTitle w) (size w) (styleSheet w) ({[a]} ∪ attributes w)
             (windowFlags w) (layout w) (visible w))).

Definition setWindowFlags (this : ptr) (f : Z) : M unit :=
  modify this (on_widget (fun w =>
    mkWidget (windowTitle w) (size w) (styleSheet w) (attributes w) f
             (layout w) (visible w))).

(** [setLayout(l)]: a widget that has a layout keeps it. *)
Definition setLayout (this : ptr) (l : ptr) : M unit :=
  modify this (on_widget (fun w =>
    match layout w with
    | Some _ => w
    | None =>
        mkWidget (windowTitle w) (size w) (styleSheet w) (attributes w)
                 (windowFlags w) (Some l) (visible w)
    end)).

Definition show (this : ptr) : M unit :=
  modify this (on_widget (fun w =>
    mkWidget (windowTitle w) (size w) (styleSheet w) (attributes w)
             (windowFlags w) (layout w) true)).

(** *** QBoxLayout *)

(** [new QVBoxLayout(parent)] and [new QHBoxLayout(parent)]: with a
    parent, the new layout is installed on it. *)
Definition new_layout (d : Direction) (parent : option ptr) : M ptr :=
  l ← new (ObjLayout (mkLayout d []));
  match parent with
  | Some p => setLayout p l ;; mret l
  | None => mret l
  end.

Definition new_QVBoxLayout := new_layout Vertical.
Definition new_QHBoxLayout := new_layout Horizontal.

Definition add_item (l : ptr) (i : item) : M unit :=
  modify l (on_layout (fun b => mkLayout (direction b) (items b ++ [i]))).

Definition addStretch (l : ptr) : M unit := add_item l Stretch.
Definition addWidget (l w : ptr) : M unit := add_item l (ItemWidget w).
Definition addLayout (l l' : ptr) : M unit := add_item l (ItemLayout l').

(** *** QLabel *)

Definition new_QLabel : M ptr := new (ObjLabel QLabel_default).

Definition setFixedSize (p : ptr) (w0 h0 : Z) : M unit :=
  modify p (on_label (fun l =>
    mkLabel (Some (w0, h0)) (font l) (text l) (alignment l) (pixmap l))).

Definition setFont (p : ptr) (f : QFont) : M unit :=
  modify p (on_label (fun l =>
    mkLabel (fixedSize l) f (text l) (alignment l) (pixmap l))).

(** A label shows one content: setting a text drops the pixmap, setting a
    pixmap drops the text. *)
Definition setText (p : ptr) (s : string) : M unit :=
  modify p (on_label (fun l =>
    mkLabel (fixedSize l) (font l) s (alignment l) None)).

Definition setPixmap (p : ptr) (pm : QPixmap) : M unit :=
  modify p (on_label (fun l =>
    mkLabel (fixedSize l) (font l) EmptyString (alignment l) (Some pm))).

Definition setAlignment (p : ptr) (a : Alignment) : M unit :=
  modify p (on_label (fun l =>
    mkLabel (fixedSize l) (font l) (text l) a (pixmap l))).

(** [*new QFont()]: a font is allocated, and the local variable is a copy
    of it. *)
Definition new_QFont_copy : M QFont :=
  _ ← new (ObjFont QFont_default); mret QFont_default.

(** *** SimpleUI *)

(** The string literals of the constructor; [quoted s] is [s] between
    double quotes. *)
Definition quoted (s : string) : string := dq +:+ s +:+ dq.

Definition street_text : string :=
  "<font color=" +:+ quoted "black" +:+ "> Next Street Name </font>".
Definition high_text : string :=
  "<font color=" +:+ quoted "red" +:+ "> <outline-color=" +:+ quoted "black"
    +:+ "> High Priority Messages </font>".
Definition medium_text : string :=
  "<font color=" +:+ quoted "gold" +:+ "> <outline-color=" +:+ quoted "black"
    +:+ "> Medium Priority Messages </font>".
Definition low_text : string :=
  "<font color=" +:+ quoted "green" +:+ "> <outline-color=" +:+ quoted "black"
    +:+ "> Low Priority Messages </font>".

(** The body of [SimpleUI::SimpleUI], after the [QWidget(parent)] base
    constructor has run on [this]. *)
Definition SimpleUI_body (this : ptr) : M unit :=
  setWindowTitle this "Advanced Qt UI" ;;
  resize this 800 600 ;;
  setStyleSheet this "background:transparent;" ;;
  setStyleSheet this "border: 4px solid black;" ;;
  setAttribute this WA_TranslucentBackground ;;
  setWindowFlags this FramelessWindowHint ;;

  mainLayout ← new_QVBoxLayout (Some this);
  topLayout ← new_QHBoxLayout None;

  bottomLayout ← new_QHBoxLayout None;
  rightLayout ← new_QVBoxLayout None;
  Street_font ← new_QFont_copy;
  let Street_font := setPointSize 40 Street_font in
  let Street_font := setUnderline address_of_free Street_font in
  Message_font ← new_QFont_copy;
  let Message_font := setPointSize 24 Message_font in
  let Message_font := setUnderline address_of_free Message_font in

  upperTextBox ← new_QLabel;
  setFixedSize upperTextBox 750 100 ;;
  setFont upperTextBox Street_font ;;
  setText upperTextBox street_text ;;
  setAlignment upperTextBox AlignCenter ;;
  addStretch topLayout ;;
  addWidget topLayout upperTextBox ;;
  addStretch topLayout ;;

  imageLabel ← new_QLabel;
  let pixmap : QPixmap := "Arrow_Left.png" in
  setPixmap imageLabel pixmap ;;
  setFixedSize imageLabel 500 500 ;;

  rightTextBox1 ← new_QLabel;
  setFixedSize rightTextBox1 500 100 ;;
  setFont rightTextBox1 Message_font ;;
  setText rightTextBox1 high_text ;;
  rightTextBox2 ← new_QLabel;
  setFixedSize rightTextBox2 500 100 ;;
  setFont rightTextBox2 Message_font ;;
  setText rightTextBox2 medium_text ;;
  rightTextBox3 ← new_QLabel;
  setFixedSize rightTextBox3 500 100 ;;
  setFont rightTextBox3 Message_font ;;
  setText rightTextBox3 low_text ;;

  addWidget rightLayout rightTextBox1 ;;
  addWidget rightLayout rightTextBox2 ;;
  addWidget rightLayout rightTextBox3 ;;

  addWidget bottomLayout imageLabel ;;
  addStretch bottomLayout ;;
  addLayout bottomLayout rightLayout ;;

  addLayout mainLayout topLayout ;;
  addStretch mainLayout ;;
  addLayout mainLayout bottomLayout ;;
  setLayout this mainLayout.

(** [SimpleUI window;]: the object, its [QWidget] base, then the body. *)
Definition new_SimpleUI : M ptr :=
  this ← new (ObjWidget QWidget_default);
  SimpleUI_body this ;;
  mret this.

(** *** What the constructor builds *)

(** [store n os m]: the objects [os] at the consecutive addresses from [n],
    over [m]. *)
Fixpoint store (n : ptr) (os : list object) (m : gmap ptr object)
  : gmap ptr object :=
  match os with
  | [] => m
  | o :: os' => store (S n) os' (<[n := o]> m)
  end.

Definition message_label (s : string) : QLabel :=
  mkLabel (Some (500, 100)) (mkFont (Some 24) true) s AlignLeftVCenter None.

(** The twelve objects of a [SimpleUI] allocated at [this], in the order of
    their allocation, as the constructor leaves them: the window, the four
    layouts, the two fonts behind [*new QFont()], the five labels. It is
    what [new_SimpleUI] is proved to build. *)
Definition SimpleUI_objects (this : ptr) : list object :=
  [ ObjWidget (mkWidget "Advanced Qt UI" (800, 600) "border: 4px solid black;"
                 ({[WA_TranslucentBackground]} ∪ ∅) FramelessWindowHint
                 (Some (1 + this)%nat) false);
    ObjLayout (mkLayout Vertical
      [ItemLayout (2 + this)%nat; Stretch; ItemLayout (3 + this)%nat]);
    ObjLayout (mkLayout Horizontal
      [Stretch; ItemWidget (7 + this)%nat; Stretch]);
    ObjLayout (mkLayout Horizontal
      [ItemWidget (8 + this)%nat; Stretch; ItemLayout (4 + this)%nat]);
    ObjLayout (mkLayout Vertical
      [ItemWidget (9 + this)%nat; ItemWidget (10 + this)%nat;
       ItemWidget (11 + this)%nat]);
    ObjFont QFont_default;
    ObjFont QFont_default;
    ObjLabel (mkLabel (Some (750, 100)) (mkFont (Some 40) true) street_text
                AlignCenter None);
    ObjLabel (mkLabel (Some (500, 500)) QFont_default EmptyString
                AlignLeftVCenter (Some "Arrow_Left.png"));
    ObjLabel (message_label high_text);
    ObjLabel (message_label medium_text);
    ObjLabel (message_label low_text) ].

(** *** Observations *)

(** The widgets a layout manages, nested layouts included, in layout
    order. [depth] bounds the nesting followed. *)
Fixpoint layout_widgets (depth : nat) (h : heap) (l : ptr) : list ptr :=
  match depth with
  | O => []
  | S depth' =>
      match get_layout h l with
      | None => []
      | Some b =>
          flat_map (fun i =>
            match i with
            | Stretch => []
            | ItemWidget w => [w]
            | ItemLayout l' => layout_widgets depth' h l'
            end) (items b)
      end
  end.

(** The labels shown in widget [this]. *)
Definition labels_of (h : heap) (this : ptr) : list QLabel :=
  match get_widget h this with
  | Some w =>
      match layout w with
      | Some l => omap (get_label h) (layout_widgets (next h) h l)
      | None => []
      end
  | None => []
  end.

Definition contains (needle s : string) : bool :=
  match String.index 0 needle s with Some _ => true | None => false end.

Fixpoint upto (stop : ascii) (s : string) : string :=
  match s with
  | EmptyString => EmptyString
  | String c s' => if Ascii.eqb c stop then EmptyString else String c (upto stop s')
  end.

Definition has_pixmap (l : QLabel) : bool :=
  match pixmap l with Some _ => true | None => false end.

(** The colour a rich text that opens with a [<font color=...>] tag is
    drawn in. *)
Definition font_color (s : string) : option string :=
  let opening := "<font color=" +:+ dq in
  if String.prefix opening s
  then Some (upto (ascii_of_nat 34)
               (String.substring (String.length opening) (String.length s) s))
  else None.

(** The layouts nested in a layout, itself included, outermost first.
    [depth] bounds the nesting followed. *)
Fixpoint layout_layouts (depth : nat) (h : heap) (l : ptr) : list ptr :=
  match depth with
  | O => []
  | S depth' =>
      l :: match get_layout h l with
           | None => []
           | Some b =>
               flat_map (fun i =>
                 match i with
                 | ItemLayout l' => layout_layouts depth' h l'
                 | _ => []
                 end) (items b)
           end
  end.

(** An item of a layout refers to a live object of its kind: a widget item
    to a label, a layout item to a layout. *)
Definition item_ok (h : heap) (i : item) : bool :=
  match i with
  | Stretch => true
  | ItemWidget w => match get_label h w with Some _ => true | None => false end
  | ItemLayout l => match get_layout h l with Some _ => true | None => false end
  end.

(** What a layout shows, read off the heap: the nesting of boxes with the
    labels in them. [Missing] stands for a pointer to no object of the
    kind expected, or for nesting beyond [depth]. *)
#[warnings="-register-all"]
Inductive shape : Type :=
| Spring
| Shown (l : QLabel)
| Box (d : Direction) (children : list shape)
| Missing.

Fixpoint layout_shape (depth : nat) (h : heap) (l : ptr) : shape :=
  match depth with
  | O => Missing
  | S depth' =>
      match get_layout h l with
      | None => Missing
      | Some b =>
          Box (direction b)
              (map (fun i =>
                 match i with
                 | Stretch => Spring
                 | ItemWidget w =>
                     match get_label h w with
                     | Some q => Shown q
                     | None => Missing
                     end
                 | ItemLayout l' => layout_shape depth' h l'
                 end) (items b))
      end
  end.

Definition window_shape (h : heap) (this : ptr) : shape :=
  match get_widget h this with
  | Some w =>
      match layout w with
      | Some l => layout_shape (next h) h l
      | None => Missing
      end
  | None => Missing
  end.

(** The heap holds, from address [this], the objects of a [SimpleUI]. *)
Definition holds_SimpleUI (h : heap) (this : ptr) : Prop :=
  forall (i : nat) (o : object),
    SimpleUI_objects this !! i = Some o -> objects h !! (i + this)%nat = Some o.

Definition layout_ok (h : heap) (l : ptr) : bool :=
  match get_layout h l with
  | Some b => forallb (item_ok h) (items b)
  | None => false
  end.

End UI.

(** ** The process *)

Module Program.

(** A slot connected to [dataChanged]: it is called with the payload and
    may change widgets. *)
Definition slot : Type := string -> UI.heap -> UI.heap.

(** A [DataStreamer] is a [QObject] with one signal; its state is the list
    of slots connected to that signal, in connection order. *)
Record DataStreamer : Type := mkStreamer {
  connections : list slot
}.

(** [DataStreamer(QObject *parent = nullptr) : QObject(parent) {}] *)
Definition DataStreamer_ctor : DataStreamer := mkStreamer [].

Record world : Type := mkWorld {
  app : bool;
  widgets : UI.heap;
  streamers : list DataStreamer;
  threads : list (nat * Streamer.thread)
}.

Definition initial : world := mkWorld false UI.empty_heap [] [].

Definition with_widgets (h : UI.heap) (w : world) : world :=
  mkWorld (app w) h (streamers w) (threads w).
Definition with_threads (ts : list (nat * Streamer.thread)) (w : world) : world :=
  mkWorld (app w) (widgets w) (streamers w) ts.

(** [emit dataChanged(data)] on streamer [s]: every connected slot is
    called with [data]. *)
Definition emit_dataChanged (s : DataStreamer) (data : string) (h : UI.heap)
  : UI.heap :=
  fold_left (fun h' (f : slot) => f data h') (connections s) h.

(** A [DataStreamer] object is made; the result is its index. *)
Definition new_DataStreamer (w : world) : nat * world :=
  (length (streamers w),
   mkWorld (app w) (widgets w) (streamers w ++ [DataStreamer_ctor]) (threads w)).

(** [this->startStreaming()]: [QThread::create(lambda)->start()]. The new
    thread runs the lambda, which has captured [this]. *)
Definition startStreaming (this : nat) (w : world) : world :=
  with_threads (threads w ++ [(this, Streamer.spawn)]) w.

(** What an effect of a thread of streamer [this] does to the process. *)
Definition deliver (this : nat) (o : option Streamer.effect) (w : world) : world :=
  match o with
  | Some (Streamer.Emit d) =>
      match streamers w !! this with
      | Some s => with_widgets (emit_dataChanged s d (widgets w)) w
      | None => w
      end
  | _ => w
  end.

(** Thread [k] executes one statement. [None]: there is no such thread, or
    it has finished. *)
Definition tick (k : nat) (w : world) : option (option Streamer.effect * world) :=
  match threads w !! k with
  | None => None
  | Some (this, t) =>
      match Streamer.step Streamer.DELAY t with
      | None => None
      | Some (o, t') =>
          Some (o, deliver this o (with_threads (<[k := (this, t')]> (threads w)) w))
      end
  end.

(** The number of production loops of streamer [this] that are running. *)
Definition loops_of (this : nat) (w : world) : nat :=
  length (filter (fun p => fst p = this /\ Streamer.at_pc (snd p) <> Streamer.AfterLoop)
                 (threads w)).

(** No slot is connected to the signal of any streamer. *)
Definition unwired (w : world) : Prop :=
  Forall (fun s => connections s = []) (streamers w).

(** What can happen in a process that uses the two classes: a streamer is
    made, [startStreaming] is called on one, a thread executes a
    statement. *)
Inductive action : Type :=
| NewDataStreamer
| StartStreaming (this : nat)
| Tick (k : nat).

Definition perform (a : action) (w : world) : world :=
  match a with
  | NewDataStreamer => snd (new_DataStreamer w)
  | StartStreaming this => startStreaming this w
  | Tick k => match tick k w with Some (_, w') => w' | None => w end
  end.

Definition perform_all (acts : list action) (w : world) : world :=
  fold_left (fun w' a => perform a w') acts w.

(** [app.exec()]: the main thread stays in the event loop, and the other
    threads of the process run as [schedule] picks them. The result is
    the effects those threads performed, and the process reached. The
    source installs no handler for window-system events, which are left
    out. *)
Fixpoint exec (schedule : list nat) (w : world) : list Streamer.effect * world :=
  match schedule with
  | [] => ([], w)
  | k :: schedule' =>
      match tick k w with
      | None => exec schedule' w
      | Some (o, w') =>
          let '(l, w'') := exec schedule' w' in (Streamer.cons_effect o l, w'')
      end
  end.

(** [main], up to the call of [app.exec()]: the window and the process.
<<
    QApplication app(argc, argv);
    SimpleUI window;
    window.show();
>>
*)
Definition main_shown : UI.ptr * world :=
  let w := mkWorld true (widgets initial) (streamers initial) (threads initial) in
  let '(window, h) := UI.new_SimpleUI (widgets w) in
  let '(_, h) := UI.show window h in
  (window, with_widgets h w).

(** [main]: [return app.exec();]. *)
Definition main (schedule : list nat) : list Streamer.effect * world :=
  exec schedule (snd main_shown).

#[global] Instance action_eq_dec : EqDecision action.
Proof. solve_decision. Defined.

(** The number of calls of [startStreaming] on streamer [this] among
    [acts]. *)
Definition starts_of (this : nat) (acts : list action) : nat :=
  length (filter (fun a => a = StartStreaming this) acts).

End Program.

(** * Properties *)

(** ** The [int] counter *)

Lemma wrap_in_range z : Int.in_range z -> Int.wrap z = z.
Proof.
  unfold Int.in_range, Int.INT_MIN, Int.INT_MAX, Int.wrap. intros Hz.
  rewrite Z.mod_small; lia.
Qed.

Lemma wrap_succ z : Int.wrap (Int.wrap z + 1) = Int.wrap (z + 1).
Proof.
  unfold Int.wrap.
  replace ((z + 2 ^ 31) mod 2 ^ 32 - 2 ^ 31 + 1 + 2 ^ 31)
    with ((z + 2 ^ 31) mod 2 ^ 32 + 1) by lia.
  rewrite Z.add_mod_idemp_l by lia.
  f_equal. f_equal. lia.
Qed.

Lemma wrap_of_nat_succ (k : nat) :
  Int.wrap (Int.wrap (Z.of_nat k) + 1) = Int.wrap (Z.of_nat (S k)).
Proof. rewrite wrap_succ. f_equal. lia. Qed.

(** ** The format *)

Lemma append_empty (s : string) : s +:+ EmptyString = s.
Proof.
  induction s as [|c s IH]; [reflexivity |].
  change (String c (s +:+ EmptyString) = String c s). by f_equal.
Qed.

Lemma arg_format (a : string) :
  QString.arg Streamer.format a = "Data update: " +:+ a.
Proof.
  unfold QString.arg.
  let ps := eval vm_compute in (QString.pieces Streamer.format) in
  change (QString.pieces Streamer.format) with ps.
  cbn. rewrite append_empty. reflexivity.
Qed.

Lemma arg_int_format (n : Z) :
  QString.arg_int Streamer.format n = Streamer.payload n.
Proof. unfold QString.arg_int. apply arg_format. Qed.

Lemma number_inj (a b : Z) : QString.number a = QString.number b -> a = b.
Proof.
  unfold QString.number. intros H.
  assert (Hi : Z.to_int a = Z.to_int b).
  { apply (f_equal NilEmpty.int_of_string) in H.
    rewrite !NilEmpty.isi in H. congruence. }
  apply (f_equal Z.of_int) in Hi.
  by rewrite !DecimalZ.of_to in Hi.
Qed.

(** ** The loop of the thread *)

Section Loop.

Variable delay : Z.

Lemma run_add (n m : nat) (t : Streamer.thread) :
  Streamer.run delay (n + m) t
  = (fst (Streamer.run delay n t)
       ++ fst (Streamer.run delay m (snd (Streamer.run delay n t))),
     snd (Streamer.run delay m (snd (Streamer.run delay n t)))).
Proof.
  revert t. induction n as [|n IH]; intros t.
  - cbn. by destruct (Streamer.run delay m t).
  - cbn [Nat.add Streamer.run].
    destruct (Streamer.step delay t) as [[o t']|] eqn:Hstep.
    + rewrite IH. destruct (Streamer.run delay n t') as [l t'']. cbn.
      by destruct o.
    + cbn. destruct m as [|m]; cbn; [done|]. by rewrite Hstep.
Qed.

(** One iteration from the head of the loop. *)
Lemma run_iteration (c : Z) (s : string) :
  Streamer.run delay 4 (Streamer.mkThread Streamer.AtWhile c s)
  = ([Streamer.Emit (Streamer.payload c); Streamer.Sleep delay],
     Streamer.mkThread Streamer.AtWhile (Int.wrap (c + 1)) (Streamer.payload c)).
Proof.
  cbn [Streamer.run Streamer.step Streamer.at_pc Streamer.counter
       Streamer.data Streamer.loop_condition Int.post_incr
       Streamer.cons_effect].
  by rewrite arg_int_format.
Qed.

Lemma beats_succ (k0 n : nat) :
  Streamer.beats delay k0 (S n)
  = Streamer.Emit (Streamer.payload (Int.wrap (Z.of_nat k0)))
      :: Streamer.Sleep delay :: Streamer.beats delay (S k0) n.
Proof. reflexivity. Qed.

(** [n] iterations from the head of the loop. *)
Lemma run_iterations (n k0 : nat) (s : string) :
  exists s',
    Streamer.run delay (4 * n)
      (Streamer.mkThread Streamer.AtWhile (Int.wrap (Z.of_nat k0)) s)
    = (Streamer.beats delay k0 n,
       Streamer.mkThread Streamer.AtWhile (Int.wrap (Z.of_nat (k0 + n))) s').
Proof.
  revert k0 s. induction n as [|n IH]; intros k0 s.
  - exists s. rewrite Nat.add_0_r. reflexivity.
  - replace (4 * S n)%nat with (4 + 4 * n)%nat by lia.
    rewrite run_add, run_iteration. cbn [fst snd].
    rewrite wrap_of_nat_succ.
    destruct (IH (S k0) (Streamer.payload (Int.wrap (Z.of_nat k0)))) as [s' Hs'].
    exists s'. rewrite Hs'. cbn [fst snd].
    rewrite beats_succ. replace (k0 + S n)%nat with (S k0 + n)%nat by lia.
    reflexivity.
Qed.

Lemma spawn_head : Streamer.spawn
  = Streamer.mkThread Streamer.AtWhile (Int.wrap (Z.of_nat 0)) EmptyString.
Proof. reflexivity. Qed.

Lemma run_spawn (n : nat) :
  fst (Streamer.run delay (4 * n) Streamer.spawn) = Streamer.beats delay 0 n
  /\ Streamer.at_pc (snd (Streamer.run delay (4 * n) Streamer.spawn))
     = Streamer.AtWhile
  /\ Streamer.counter (snd (Streamer.run delay (4 * n) Streamer.spawn))
     = Int.wrap (Z.of_nat n).
Proof.
  rewrite spawn_head.
  destruct (run_iterations n 0 EmptyString) as [s' ->]. done.
Qed.

Lemma emitted_beats (k0 n : nat) :
  Streamer.emitted (Streamer.beats delay k0 n)
  = map (fun k => Streamer.payload (Int.wrap (Z.of_nat k))) (seq k0 n).
Proof.
  revert k0. induction n as [|n IH]; intros k0; [reflexivity|].
  rewrite beats_succ. cbn. f_equal. apply IH.
Qed.

Lemma timed_beats (now : Z) (k0 n : nat) :
  Streamer.timed now (Streamer.beats delay k0 n)
  = map (fun k => (now + delay * (Z.of_nat k - Z.of_nat k0),
                   Streamer.payload (Int.wrap (Z.of_nat k))))
        (seq k0 n).
Proof.
  revert now k0. induction n as [|n IH]; intros now k0; [reflexivity|].
  rewrite beats_succ. cbn [Streamer.timed seq map]. f_equal.
  - f_equal. lia.
  - rewrite IH. apply map_ext_in. intros k Hk. f_equal. lia.
Qed.

End Loop.

(** ** Emissions of the thread *)

Lemma lookup_map_seq {A} (f : nat -> A) (n i : nat) :
  (i < n)%nat -> map f (seq 0 n) !! i = Some (f i).
Proof.
  intros Hi. change (map f (seq 0 n)) with (f <$> seq 0 n).
  rewrite list_lookup_fmap, lookup_seq_lt by done. reflexivity.
Qed.

Lemma lookup_map_seq_inv {A} (f : nat -> A) (n i : nat) (x : A) :
  map f (seq 0 n) !! i = Some x -> x = f i.
Proof.
  change (map f (seq 0 n)) with (f <$> seq 0 n).
  rewrite list_lookup_fmap. intros H.
  destruct (seq 0 n !! i) as [k|] eqn:Hk; [|done].
  apply lookup_seq in Hk as [-> _]. cbn in H. congruence.
Qed.

Lemma emission_eq (k : nat) :
  Streamer.emission k = Some (Streamer.payload (Int.wrap (Z.of_nat k))).
Proof.
  unfold Streamer.emission.
  destruct (run_spawn Streamer.DELAY (S k)) as [-> _].
  rewrite emitted_beats.
  apply (lookup_map_seq (fun i => Streamer.payload (Int.wrap (Z.of_nat i)))). lia.
Qed.

(** Whatever the number of statements executed, the emissions so far are the
    first emissions of the thread. *)
Lemma emitted_prefix (d : Z) (m N : nat) (x : string) :
  Streamer.emitted (fst (Streamer.run d m Streamer.spawn)) !! N = Some x ->
  x = Streamer.payload (Int.wrap (Z.of_nat N)).
Proof.
  intros H.
  assert (Hbig : Streamer.emitted (fst (Streamer.run d (4 * m) Streamer.spawn)) !! N
                 = Some x).
  { replace (4 * m)%nat with (m + 3 * m)%nat by lia.
    rewrite run_add. cbn [fst]. unfold Streamer.emitted in *.
    rewrite omap_app. by apply lookup_app_l_Some. }
  destruct (run_spawn d m) as [Hfst _]. rewrite Hfst, emitted_beats in Hbig.
  by apply (lookup_map_seq_inv
              (fun i => Streamer.payload (Int.wrap (Z.of_nat i)))) in Hbig.
Qed.

Lemma payload_inj (a b : Z) : Streamer.payload a = Streamer.payload b -> a = b.
Proof.
  unfold Streamer.payload. intros H.
  apply String.app_inj in H. by apply number_inj.
Qed.

Lemma seqno_eq (k : nat) : Streamer.seqno k = Int.wrap (Z.of_nat k).
Proof.
  unfold Streamer.seqno. by destruct (run_spawn Streamer.DELAY k) as (_ & _ & ->).
Qed.

Lemma wrap_nat_small (k : nat) :
  Z.of_nat k < 2 ^ 31 -> Int.wrap (Z.of_nat k) = Z.of_nat k.
Proof.
  intros Hk. apply wrap_in_range.
  unfold Int.in_range, Int.INT_MIN, Int.INT_MAX. lia.
Qed.

(** ** Reachable states of the thread *)

Lemma reachable_in_loop (d : Z) (t : Streamer.thread) :
  Streamer.reachable d t -> Streamer.at_pc t <> Streamer.AfterLoop.
Proof.
  induction 1 as [|t o t' Hreach IH Hstep]; [discriminate|].
  unfold Streamer.step in Hstep.
  destruct (Streamer.at_pc t) eqn:Hpc; cbn in Hstep;
    try (injection Hstep as _ <-; discriminate).
  congruence.
Qed.

Lemma step_in_loop (d : Z) (t : Streamer.thread) :
  Streamer.at_pc t <> Streamer.AfterLoop ->
  exists o t', Streamer.step d t = Some (o, t').
Proof.
  intros Hpc. unfold Streamer.step.
  destruct (Streamer.at_pc t); cbn; eauto. congruence.
Qed.

Lemma reachable_run (d : Z) (n : nat) (t : Streamer.thread) :
  Streamer.reachable d t -> Streamer.reachable d (snd (Streamer.run d n t)).
Proof.
  revert t. induction n as [|n IH]; intros t Ht; [done|].
  cbn [Streamer.run].
  destruct (Streamer.step d t) as [[o t']|] eqn:Hstep; [|done].
  specialize (IH t' (Streamer.reach_step d t o t' Ht Hstep)).
  by destruct (Streamer.run d n t').
Qed.

Lemma four_statements_one_emission (d : Z) (t : Streamer.thread) :
  Streamer.at_pc t <> Streamer.AfterLoop ->
  length (Streamer.emitted (fst (Streamer.run d 4 t))) = 1%nat.
Proof.
  destruct t as [p c s]. cbn [Streamer.at_pc]. intros Hpc.
  destruct p; try done.
Qed.

(** ** Starting a stream *)

Lemma startStreaming_threads (this : nat) (w : Program.world) :
  Program.threads (Program.startStreaming this w)
  = Program.threads w ++ [(this, Streamer.spawn)].
Proof. reflexivity. Qed.

Lemma loops_of_startStreaming (this : nat) (w : Program.world) :
  Program.loops_of this (Program.startStreaming this w)
  = S (Program.loops_of this w).
Proof.
  unfold Program.loops_of. rewrite startStreaming_threads, filter_app, length_app.
  rewrite filter_cons_True by (cbn; split; [reflexivity | discriminate]).
  cbn. lia.
Qed.

Lemma tick_threads (k : nat) (w w' : Program.world) (o : option Streamer.effect) :
  Program.tick k w = Some (o, w') ->
  exists this t t',
    Program.threads w !! k = Some (this, t)
    /\ Streamer.step Streamer.DELAY t = Some (o, t')
    /\ Program.threads w' = <[k := (this, t')]> (Program.threads w).
Proof.
  unfold Program.tick.
  destruct (Program.threads w !! k) as [[this t]|]; [|done].
  destruct (Streamer.step Streamer.DELAY t) as [[o' t']|] eqn:Hstep; [|done].
  intros [= <- <-]. exists this, t, t'. split; [done |]. split; [done |].
  unfold Program.deliver. destruct o' as [[d|ms]|]; try done.
  cbn [Program.with_threads Program.streamers].
  by destruct (Program.streamers w !! this).
Qed.

(** C1, as amended. Each call of [startStreaming] adds a thread that begins
    with [counter = 0], whatever threads run already, and a statement of
    one thread leaves the counter of every other thread alone. For every
    [N < 2^31] the [N]-th emission of a thread (counted from 0) is
    "Data update: N": on a run of [N + 1] iterations it is there, and in a
    run of any number of statements the [N]-th emission, if it has
    happened, is that one. Payloads of different numbers differ. *)
Theorem emissions_count_from_zero :
  (forall (this : nat) (w : Program.world),
      last (Program.threads (Program.startStreaming this w))
        = Some (this, Streamer.spawn)
      /\ Streamer.counter Streamer.spawn = 0
      /\ Streamer.emission 0 = Some "Data update: 0")
  /\ (forall N : nat, Z.of_nat N < 2 ^ 31 ->
        Streamer.emission N = Some (Streamer.payload (Z.of_nat N)))
  /\ (forall (m N : nat) (x : string), Z.of_nat N < 2 ^ 31 ->
        Streamer.emitted (fst (Streamer.run Streamer.DELAY m Streamer.spawn)) !! N
          = Some x ->
        x = Streamer.payload (Z.of_nat N))
  /\ (forall a b : Z, Streamer.payload a = Streamer.payload b -> a = b)
  /\ (forall (j k : nat) (w w' : Program.world) (o : option Streamer.effect),
        j <> k -> Program.tick j w = Some (o, w') ->
        Program.threads w' !! k = Program.threads w !! k).
Proof.
  split; [| split; [| split; [| split]]].
  - intros this w. split; [| done].
    rewrite startStreaming_threads. apply last_snoc.
  - intros N HN. by rewrite emission_eq, wrap_nat_small.
  - intros m N x HN Hx. apply emitted_prefix in Hx.
    by rewrite wrap_nat_small in Hx.
  - apply payload_inj.
  - intros j k w w' o Hjk Ht.
    destruct (tick_threads _ _ _ _ Ht) as (this & t & t' & _ & _ & ->).
    by apply list_lookup_insert_ne.
Qed.

Lemma emissions_count_from_zero_witness :
  Z.of_nat 7 < 2 ^ 31
  /\ Streamer.emission 7 = Some (Streamer.payload (Z.of_nat 7))
  /\ Streamer.emitted (fst (Streamer.run Streamer.DELAY 13 Streamer.spawn)) !! 2%nat
     = Some "Data update: 2"
  /\ "Data update: 2" = Streamer.payload (Z.of_nat 2).
Proof.
  split; [vm_compute; reflexivity |].
  split; [apply (proj1 (proj2 emissions_count_from_zero) 7%nat);
          vm_compute; reflexivity |].
  split; [vm_compute; reflexivity |].
  apply (proj1 (proj2 (proj2 emissions_count_from_zero)) 13%nat 2%nat);
    vm_compute; reflexivity.
Defined.

(** C1 as stated fails: emission number 2^31 does not carry 2^31; the
    counter has wrapped to -2^31. *)
Lemma emissions_count_from_zero_counterexample :
  Streamer.emission (Z.to_nat (2 ^ 31)) = Some "Data update: -2147483648"
  /\ Streamer.emission (Z.to_nat (2 ^ 31))
     <> Some (Streamer.payload (Z.of_nat (Z.to_nat (2 ^ 31)))).
Proof.
  rewrite emission_eq, Z2Nat.id by lia.
  split; [vm_compute; reflexivity | vm_compute; discriminate].
Qed.

(** C2, as amended. [startStreaming] has no failure path and keeps no record
    of a loop that runs: every call, also on a streamer that is streaming,
    adds one more loop of that streamer, at its start, and leaves the
    threads that exist, the streamers and the widgets as they are. *)
Theorem startStreaming_starts_another_loop (this : nat) (w : Program.world) :
  Program.threads (Program.startStreaming this w)
    = Program.threads w ++ [(this, Streamer.spawn)]
  /\ Program.loops_of this (Program.startStreaming this w)
     = S (Program.loops_of this w)
  /\ Program.streamers (Program.startStreaming this w) = Program.streamers w
  /\ Program.widgets (Program.startStreaming this w) = Program.widgets w.
Proof.
  split; [apply startStreaming_threads |].
  split; [apply loops_of_startStreaming | done].
Qed.

(** C2 as stated fails: on a streamer with one running loop, a second call
    begins a second loop. *)
Lemma startStreaming_twice_counterexample :
  Program.loops_of 0
    (Program.perform_all [Program.NewDataStreamer; Program.StartStreaming 0]
       Program.initial) = 1%nat
  /\ Program.loops_of 0
       (Program.startStreaming 0
          (Program.perform_all [Program.NewDataStreamer; Program.StartStreaming 0]
             Program.initial)) = 2%nat.
Proof. split; vm_compute; reflexivity. Qed.

Lemma perform_threads_reachable (a : Program.action) (w : Program.world) :
  Forall (fun p => Streamer.reachable Streamer.DELAY (snd p)) (Program.threads w) ->
  Forall (fun p => Streamer.reachable Streamer.DELAY (snd p))
         (Program.threads (Program.perform a w))
  /\ (length (Program.threads w) <= length (Program.threads (Program.perform a w)))%nat.
Proof.
  intros Hw. destruct a as [|this|k]; cbn [Program.perform].
  - done.
  - rewrite startStreaming_threads, length_app. split; [| lia].
    apply Forall_app. split; [done |]. constructor; [| done].
    apply Streamer.reach_spawn.
  - destruct (Program.tick k w) as [[o w']|] eqn:Ht; [| done].
    destruct (tick_threads _ _ _ _ Ht) as (this & t & t' & Hk & Hstep & ->).
    rewrite length_insert. split; [| done].
    apply Forall_insert; [done |]. cbn.
    rewrite Forall_lookup in Hw. specialize (Hw _ _ Hk).
    by eapply Streamer.reach_step.
Qed.

Lemma perform_all_threads_reachable (acts : list Program.action) (w : Program.world) :
  Forall (fun p => Streamer.reachable Streamer.DELAY (snd p)) (Program.threads w) ->
  Forall (fun p => Streamer.reachable Streamer.DELAY (snd p))
         (Program.threads (Program.perform_all acts w)).
Proof.
  revert w. induction acts as [|a acts IH]; intros w Hw; [done |].
  change (Program.perform_all (a :: acts) w)
    with (Program.perform_all acts (Program.perform a w)).
  apply IH. by apply perform_threads_reachable.
Qed.

(** C3. A state the thread reaches is never past the loop; it always has a
    next statement, which leads to a reachable state again; and the next
    four statements from it perform exactly one emission. In a process,
    whatever has been done since [main] showed the window, every thread that
    was started can execute its next statement, and nothing that can happen
    takes a thread away. *)
Theorem streaming_loop_never_ends :
  (forall t : Streamer.thread,
      Streamer.reachable Streamer.DELAY t ->
      Streamer.at_pc t <> Streamer.AfterLoop
      /\ (exists o t', Streamer.step Streamer.DELAY t = Some (o, t')
                       /\ Streamer.reachable Streamer.DELAY t')
      /\ length (Streamer.emitted (fst (Streamer.run Streamer.DELAY 4 t))) = 1%nat
      /\ Streamer.reachable Streamer.DELAY (snd (Streamer.run Streamer.DELAY 4 t)))
  /\ (forall (acts : list Program.action) (k : nat),
        (k < length (Program.threads
                       (Program.perform_all acts (snd Program.main_shown))))%nat ->
        exists o w',
          Program.tick k (Program.perform_all acts (snd Program.main_shown))
          = Some (o, w'))
  /\ (forall (a : Program.action) (w : Program.world),
        (length (Program.threads w)
         <= length (Program.threads (Program.perform a w)))%nat).
Proof.
  split; [| split].
  - intros t Ht. pose proof (reachable_in_loop _ _ Ht) as Hpc.
    split; [done |]. split.
    + destruct (step_in_loop Streamer.DELAY t Hpc) as (o & t' & Hstep).
      exists o, t'. split; [done |]. by eapply Streamer.reach_step.
    + split; [by apply four_statements_one_emission | by apply reachable_run].
  - intros acts k Hk.
    assert (Hall : Forall (fun p => Streamer.reachable Streamer.DELAY (snd p))
                     (Program.threads
                        (Program.perform_all acts (snd Program.main_shown))))
      by (apply perform_all_threads_reachable; constructor).
    apply lookup_lt_is_Some_2 in Hk as [[this t] Hkt].
    rewrite Forall_lookup in Hall. specialize (Hall _ _ Hkt). cbn in Hall.
    destruct (step_in_loop Streamer.DELAY t (reachable_in_loop _ _ Hall))
      as (o & t' & Hstep).
    unfold Program.tick. rewrite Hkt, Hstep. eauto.
  - intros a w. destruct a as [|this|k]; cbn [Program.perform].
    + done.
    + rewrite startStreaming_threads, length_app. lia.
    + destruct (Program.tick k w) as [[o w']|] eqn:Ht; [| done].
      destruct (tick_threads _ _ _ _ Ht) as (this & t & t' & _ & _ & ->).
      by rewrite length_insert.
Qed.

Lemma streaming_loop_never_ends_witness :
  Streamer.reachable Streamer.DELAY
    (Streamer.mkThread Streamer.AtEmit 1 "Data update: 0")
  /\ length (Streamer.emitted (fst (Streamer.run Streamer.DELAY 4
               (Streamer.mkThread Streamer.AtEmit 1 "Data update: 0")))) = 1%nat
  /\ (1 < length (Program.threads
                    (Program.perform_all
                       [Program.NewDataStreamer; Program.StartStreaming 0;
                        Program.StartStreaming 0; Program.Tick 1]
                       (snd Program.main_shown))))%nat
  /\ exists o w',
       Program.tick 1
         (Program.perform_all
            [Program.NewDataStreamer; Program.StartStreaming 0;
             Program.StartStreaming 0; Program.Tick 1]
            (snd Program.main_shown))
       = Some (o, w').
Proof.
  assert (H : Streamer.reachable Streamer.DELAY
                (Streamer.mkThread Streamer.AtEmit 1 "Data update: 0")).
  { apply (Streamer.reach_step _
             (Streamer.mkThread Streamer.AtArg 0 EmptyString) None);
      [| vm_compute; reflexivity].
    apply (Streamer.reach_step _ Streamer.spawn None); [| reflexivity].
    apply Streamer.reach_spawn. }
  assert (H1 : (1 < length (Program.threads
                    (Program.perform_all
                       [Program.NewDataStreamer; Program.StartStreaming 0;
                        Program.StartStreaming 0; Program.Tick 1]
                       (snd Program.main_shown))))%nat)
    by (vm_compute; lia).
  split; [exact H |].
  split; [exact (proj1 (proj2 (proj2 (proj1 streaming_loop_never_ends _ H)))) |].
  split; [exact H1 |].
  exact (proj1 (proj2 streaming_loop_never_ends) _ 1%nat H1).
Defined.

(** C5, as amended. Every iteration emits and then sleeps for one second:
    the effects of [n] iterations are, for k = 0, ..., n - 1 in turn, the
    emission of number k and a sleep of 1000 ms. *)
Theorem streaming_loop_sleeps_between_emissions (n : nat) :
  fst (Streamer.run Streamer.DELAY (4 * n) Streamer.spawn)
  = flat_map (fun k => [Streamer.Emit (Streamer.payload (Int.wrap (Z.of_nat k)));
                        Streamer.Sleep 1000])
             (seq 0 n).
Proof. by destruct (run_spawn Streamer.DELAY n) as [-> _]. Qed.

(** C5 as stated fails: a sleep of one second stands between the first two
    emissions. *)
Lemma streaming_loop_unthrottled_counterexample :
  fst (Streamer.run Streamer.DELAY 8 Streamer.spawn)
  = [Streamer.Emit "Data update: 0"; Streamer.Sleep 1000;
     Streamer.Emit "Data update: 1"; Streamer.Sleep 1000]
  /\ forallb Streamer.is_emit (fst (Streamer.run Streamer.DELAY 8 Streamer.spawn))
     = false.
Proof. split; vm_compute; reflexivity. Qed.

(** ** Logical time of the emissions *)

Lemma filter_beats_late {A} (f : nat -> A) (t d : Z) (j n : nat) :
  0 <= d -> t < d * Z.of_nat j ->
  filter (fun p : Z * A => fst p <= t)
         (map (fun k => (0 + d * (Z.of_nat k - Z.of_nat 0), f k)) (seq j n)) = [].
Proof.
  intros Hd. revert j. induction n as [|n IH]; intros j Hj; [reflexivity|].
  cbn [seq map]. rewrite filter_cons_False by (cbn; nia).
  apply IH. nia.
Qed.

Lemma timed_run (d : Z) (n : nat) :
  Streamer.timed 0 (fst (Streamer.run d (4 * n) Streamer.spawn))
  = map (fun k => (0 + d * (Z.of_nat k - Z.of_nat 0),
                   Streamer.payload (Int.wrap (Z.of_nat k))))
        (seq 0 n).
Proof. destruct (run_spawn d n) as [-> _]. apply timed_beats. Qed.

(** C6, as amended. The loop emits before it sleeps. In logical time, where
    the clock moves only by the durations slept, the emission of number
    [k] happens at [k] times the delay, the first at time 0. With the
    delay of the source, one second, the emissions by 350 ms are exactly
    number 0; were the delay 100 ms, they would be numbers 0, 1, 2, 3. *)
Theorem emission_times :
  (forall (d : Z) (n : nat),
      Streamer.timed 0 (fst (Streamer.run d (4 * n) Streamer.spawn))
      = map (fun k => (d * Z.of_nat k, Streamer.payload (Int.wrap (Z.of_nat k))))
            (seq 0 n))
  /\ Streamer.DELAY = 1000
  /\ (forall n : nat,
        Streamer.emitted_by 350
          (fst (Streamer.run Streamer.DELAY (4 * S n) Streamer.spawn))
        = ["Data update: 0"])
  /\ (forall n : nat,
        Streamer.emitted_by 350
          (fst (Streamer.run 100 (4 * (4 + n)) Streamer.spawn))
        = ["Data update: 0"; "Data update: 1"; "Data update: 2";
           "Data update: 3"]).
Proof.
  split; [| split; [reflexivity | split]].
  - intros d n. rewrite timed_run. apply map_ext. intros k. f_equal. lia.
  - intros n. unfold Streamer.emitted_by. rewrite timed_run.
    cbn [seq map]. rewrite filter_cons_True by (vm_compute; discriminate).
    rewrite filter_beats_late by (vm_compute; first [discriminate | reflexivity]).
    vm_compute; reflexivity.
  - intros n. unfold Streamer.emitted_by. rewrite timed_run.
    cbn [seq map Nat.add].
    do 4 rewrite filter_cons_True by (vm_compute; discriminate).
    rewrite filter_beats_late by (vm_compute; first [discriminate | reflexivity]).
    vm_compute; reflexivity.
Qed.

(** C6 as stated fails: with a delay of 100 ms the emission of number 3 has
    happened by 350 ms, and with the delay of the source only number 0 has;
    in both cases the first effect of the thread is the emission of
    number 0, before any sleep. *)
Lemma emission_times_counterexample :
  Streamer.emitted_by 350 (fst (Streamer.run 100 40 Streamer.spawn))
    = ["Data update: 0"; "Data update: 1"; "Data update: 2"; "Data update: 3"]
  /\ Streamer.emitted_by 350 (fst (Streamer.run Streamer.DELAY 40 Streamer.spawn))
     = ["Data update: 0"]
  /\ head (Streamer.timed 0 (fst (Streamer.run 100 40 Streamer.spawn)))
     = Some (0, "Data update: 0")
  /\ head (fst (Streamer.run Streamer.DELAY 40 Streamer.spawn))
     = Some (Streamer.Emit "Data update: 0").
Proof. repeat split; vm_compute; reflexivity. Qed.

(** ** The counter wraps *)

(** C9. The number an emission carries is the 32-bit wrap of its index, and
    each iteration increments the counter once, without a test. For the
    first 2^31 - 1 emissions the next number is larger; the emission after
    them carries [INT_MAX] and the one after that [INT_MIN]. *)
Theorem sequence_numbers_wrap :
  (forall k : nat,
      Streamer.emission k = Some (Streamer.payload (Streamer.seqno k))
      /\ Streamer.seqno (S k) = Int.wrap (Streamer.seqno k + 1)
      /\ Streamer.seqno k = (Z.of_nat k + 2 ^ 31) mod 2 ^ 32 - 2 ^ 31)
  /\ (forall k : nat, Z.of_nat k < 2 ^ 31 - 1 ->
        Streamer.seqno k = Z.of_nat k
        /\ Streamer.seqno k < Streamer.seqno (S k))
  /\ (Streamer.seqno (Z.to_nat Int.INT_MAX) = Int.INT_MAX
      /\ Streamer.seqno (S (Z.to_nat Int.INT_MAX)) = Int.INT_MIN
      /\ Streamer.seqno (S (Z.to_nat Int.INT_MAX))
         < Streamer.seqno (Z.to_nat Int.INT_MAX)).
Proof.
  split; [| split].
  - intros k. rewrite emission_eq, !seqno_eq. split; [done |].
    split; [by rewrite wrap_of_nat_succ | done].
  - intros k Hk. rewrite !seqno_eq.
    rewrite (wrap_nat_small k), (wrap_nat_small (S k)) by lia. lia.
  - rewrite !seqno_eq, Nat2Z.inj_succ, Z2Nat.id by (vm_compute; discriminate).
    vm_compute. repeat split; reflexivity.
Qed.

Lemma sequence_numbers_wrap_witness :
  Z.of_nat 41 < 2 ^ 31 - 1
  /\ Streamer.seqno 41 = Z.of_nat 41
  /\ Streamer.seqno 41 < Streamer.seqno (S 41).
Proof.
  assert (H : Z.of_nat 41 < 2 ^ 31 - 1) by (vm_compute; reflexivity).
  split; [exact H |].
  exact (proj1 (proj2 sequence_numbers_wrap) 41%nat H).
Defined.

(** ** The window *)

Lemma store_frame (os : list UI.object) (n p : UI.ptr) (m : gmap UI.ptr UI.object) :
  (p < n \/ n + length os <= p)%nat -> UI.store n os m !! p = m !! p.
Proof.
  revert n m. induction os as [|o os IH]; intros n m Hp; [done|].
  cbn [UI.store]. cbn [length] in Hp.
  rewrite IH by lia. apply lookup_insert_ne. lia.
Qed.

Lemma store_lookup (os : list UI.object) (n i : nat) (m : gmap UI.ptr UI.object)
    (o : UI.object) :
  os !! i = Some o -> UI.store n os m !! (i + n)%nat = Some o.
Proof.
  revert n i m. induction os as [|o' os IH]; intros n i m Hi; [done|].
  cbn [UI.store]. destruct i as [|i].
  - injection Hi as ->. rewrite store_frame by lia. apply lookup_insert_eq.
  - replace (S i + n)%nat with (i + S n)%nat by lia. by apply IH.
Qed.

(** The constructor, run on any heap, allocates the twelve objects of
    [UI.SimpleUI_objects] at the next free addresses. *)
Lemma new_SimpleUI_builds (m : gmap UI.ptr UI.object) (n : UI.ptr) :
  UI.new_SimpleUI (UI.mkHeap m n)
  = (n, UI.mkHeap (UI.store n (UI.SimpleUI_objects n) m) (12 + n)%nat).
Proof.
  cbv beta iota zeta delta
    [UI.new_SimpleUI UI.SimpleUI_body mbind mret UI.M_bind UI.M_ret UI.new
     UI.modify UI.setWindowTitle UI.resize UI.setStyleSheet UI.setAttribute
     UI.setWindowFlags UI.setLayout UI.new_layout UI.new_QVBoxLayout
     UI.new_QHBoxLayout UI.add_item UI.addStretch UI.addWidget UI.addLayout
     UI.new_QLabel UI.setFixedSize UI.setFont UI.setText UI.setPixmap
     UI.setAlignment UI.new_QFont_copy UI.objects UI.next].
  repeat first [rewrite alter_insert_eq | rewrite alter_insert_ne by lia].
  reflexivity.
Qed.

Ltac built_lookup H i :=
  match goal with
  | |- context [UI.store ?n (UI.SimpleUI_objects ?n) ?m] =>
      pose proof (store_lookup (UI.SimpleUI_objects n) n i m _ eq_refl) as H;
      cbn [Nat.add] in H
  end.

Lemma new_SimpleUI_widget (h : UI.heap) :
  UI.get_widget (snd (UI.new_SimpleUI h)) (fst (UI.new_SimpleUI h))
  = Some (UI.mkWidget "Advanced Qt UI" (800, 600) "border: 4px solid black;"
            ({[UI.WA_TranslucentBackground]} ∪ ∅) UI.FramelessWindowHint
            (Some (S (UI.next h))) false).
Proof.
  destruct h as [m n]. rewrite new_SimpleUI_builds. cbn [fst snd UI.next].
  built_lookup H0 0%nat.
  unfold UI.get_widget. cbn [UI.objects]. by rewrite H0.
Qed.

Lemma new_SimpleUI_labels (h : UI.heap) :
  UI.labels_of (snd (UI.new_SimpleUI h)) (fst (UI.new_SimpleUI h))
  = [ UI.mkLabel (Some (750, 100)) (UI.mkFont (Some 40) true) UI.street_text
        UI.AlignCenter None;
      UI.mkLabel (Some (500, 500)) UI.QFont_default EmptyString
        UI.AlignLeftVCenter (Some "Arrow_Left.png");
      UI.message_label UI.high_text;
      UI.message_label UI.medium_text;
      UI.message_label UI.low_text ].
Proof.
  unfold UI.labels_of. rewrite new_SimpleUI_widget. cbn [UI.layout].
  destruct h as [m n]. rewrite new_SimpleUI_builds. cbn [fst snd UI.next].
  built_lookup H1 1%nat. built_lookup H2 2%nat. built_lookup H3 3%nat.
  built_lookup H4 4%nat. built_lookup H7 7%nat. built_lookup H8 8%nat.
  built_lookup H9 9%nat. built_lookup H10 10%nat. built_lookup H11 11%nat.
  set (m' := UI.store n (UI.SimpleUI_objects n) m) in *.
  cbn [Nat.add UI.layout_widgets].
  unfold UI.get_layout. cbn [UI.objects].
  rewrite H1. cbn [UI.items flat_map app]. rewrite H2, H3.
  cbn [UI.items flat_map app]. rewrite H4. cbn [UI.items flat_map app].
  cbn [omap list_omap]. unfold UI.get_label. cbn [UI.objects].
  by rewrite H7, H8, H9, H10, H11.
Qed.

Lemma new_SimpleUI_frame (h : UI.heap) (p : UI.ptr) :
  (p < UI.next h)%nat ->
  UI.objects (snd (UI.new_SimpleUI h)) !! p = UI.objects h !! p.
Proof.
  destruct h as [m n]. rewrite new_SimpleUI_builds. cbn [snd UI.objects UI.next].
  intros Hp. apply store_frame. lia.
Qed.

(** C7. The constructor, on any heap of objects, leaves a window with the
    frameless hint and the translucent-background attribute set, whose
    layout holds five labels: the street name, the arrow image, and the
    high, medium and low priority messages in red, gold and green. Exactly
    one of the five names a street, one shows a pixmap, three are priority
    messages. *)
Theorem simple_ui_window (h : UI.heap) :
  exists (w : UI.QWidget) (upper image r1 r2 r3 : UI.QLabel),
    UI.get_widget (snd (UI.new_SimpleUI h)) (fst (UI.new_SimpleUI h)) = Some w
    /\ UI.testFlag (UI.windowFlags w) UI.FramelessWindowHint = true
    /\ UI.testAttribute UI.WA_TranslucentBackground w = true
    /\ UI.labels_of (snd (UI.new_SimpleUI h)) (fst (UI.new_SimpleUI h))
       = [upper; image; r1; r2; r3]
    /\ (UI.contains "Next Street Name" (UI.text upper) = true
        /\ UI.has_pixmap upper = false)
    /\ (UI.pixmap image = Some "Arrow_Left.png" /\ UI.text image = EmptyString)
    /\ (UI.font_color (UI.text r1) = Some "red"
        /\ UI.contains "High Priority Messages" (UI.text r1) = true)
    /\ (UI.font_color (UI.text r2) = Some "gold"
        /\ UI.contains "Medium Priority Messages" (UI.text r2) = true)
    /\ (UI.font_color (UI.text r3) = Some "green"
        /\ UI.contains "Low Priority Messages" (UI.text r3) = true)
    /\ length (filter (fun l => UI.contains "Street Name" (UI.text l) = true)
                      [upper; image; r1; r2; r3]) = 1%nat
    /\ length (filter (fun l => UI.has_pixmap l = true)
                      [upper; image; r1; r2; r3]) = 1%nat
    /\ length (filter (fun l => UI.contains "Priority Messages" (UI.text l) = true)
                      [upper; image; r1; r2; r3]) = 3%nat.
Proof.
  do 6 eexists.
  split; [apply new_SimpleUI_widget |].
  split; [vm_compute; reflexivity |].
  split; [vm_compute; reflexivity |].
  split; [apply new_SimpleUI_labels |].
  repeat split; vm_compute; reflexivity.
Qed.

Lemma setStyleSheet_twice (h : UI.heap) (p : UI.ptr) (s1 s2 : string) :
  snd (UI.setStyleSheet p s2 (snd (UI.setStyleSheet p s1 h)))
  = snd (UI.setStyleSheet p s2 h).
Proof.
  unfold UI.setStyleSheet, UI.modify. cbn [snd UI.objects UI.next]. f_equal.
  rewrite alter_alter_eq. apply alter_ext.
  intros o _. by destruct o.
Qed.

(** C8. A second [setStyleSheet] replaces what the first one set, on any
    widget. The window the constructor leaves, on any heap, has the style
    sheet "border: 4px solid black;", which says nothing of the background,
    and has the translucent-background attribute set. *)
Theorem style_sheet_overwritten :
  (forall (h : UI.heap) (p : UI.ptr) (s1 s2 : string),
      snd (UI.setStyleSheet p s2 (snd (UI.setStyleSheet p s1 h)))
      = snd (UI.setStyleSheet p s2 h))
  /\ (forall h : UI.heap, exists w : UI.QWidget,
       UI.get_widget (snd (UI.new_SimpleUI h)) (fst (UI.new_SimpleUI h)) = Some w
       /\ UI.styleSheet w = "border: 4px solid black;"
       /\ UI.contains "background" (UI.styleSheet w) = false
       /\ UI.contains "transparent" (UI.styleSheet w) = false
       /\ UI.testAttribute UI.WA_TranslucentBackground w = true).
Proof.
  split; [apply setStyleSheet_twice |].
  intros h. eexists. split; [apply new_SimpleUI_widget |].
  repeat split; vm_compute; reflexivity.
Qed.

(** ** The signal reaches nothing *)

Lemma tick_unwired (k : nat) (w w' : Program.world) (o : option Streamer.effect) :
  Program.unwired w -> Program.tick k w = Some (o, w') ->
  Program.widgets w' = Program.widgets w
  /\ Program.streamers w' = Program.streamers w.
Proof.
  intros Hw. unfold Program.tick.
  destruct (Program.threads w !! k) as [[this t]|]; [|done].
  destruct (Streamer.step Streamer.DELAY t) as [[o' t']|]; [|done].
  intros [= <- <-]. unfold Program.deliver.
  destruct o' as [[d|ms]|]; try done.
  cbn [Program.with_threads Program.streamers Program.widgets].
  destruct (Program.streamers w !! this) as [s|] eqn:Hs; [|done].
  cbn. split; [|done].
  unfold Program.unwired in Hw. rewrite Forall_lookup in Hw.
  unfold Program.emit_dataChanged. by rewrite (Hw _ _ Hs).
Qed.

Lemma perform_unwired (a : Program.action) (w : Program.world) :
  Program.unwired w ->
  Program.unwired (Program.perform a w)
  /\ Program.widgets (Program.perform a w) = Program.widgets w.
Proof.
  intros Hw. destruct a as [|this|k]; cbn.
  - split; [|done]. unfold Program.unwired in *. cbn.
    apply Forall_app. split; [done |]. by constructor.
  - done.
  - destruct (Program.tick k w) as [[o w']|] eqn:Ht; [|done].
    destruct (tick_unwired _ _ _ _ Hw Ht) as [Hwid Hstr].
    split; [|done]. unfold Program.unwired. by rewrite Hstr.
Qed.

Lemma perform_all_unwired (acts : list Program.action) (w : Program.world) :
  Program.unwired w ->
  Program.unwired (Program.perform_all acts w)
  /\ Program.widgets (Program.perform_all acts w) = Program.widgets w.
Proof.
  revert w. induction acts as [|a acts IH]; intros w Hw; [done|].
  change (Program.perform_all (a :: acts) w)
    with (Program.perform_all acts (Program.perform a w)).
  destruct (perform_unwired a w Hw) as [Hu Hwid].
  destruct (IH _ Hu) as [Hu' Hwid']. split; [done | congruence].
Qed.

Lemma main_shown_unwired : Program.unwired (snd Program.main_shown).
Proof. constructor. Qed.

(** C4. In a process that has shown the window and then makes streamers,
    starts them and lets their threads run, in any order, no streamer has
    a slot connected to [dataChanged], and an emission leaves the widgets
    as [main] made them: the five labels of the window are the same. *)
Theorem dataChanged_changes_no_widget
    (acts : list Program.action) (k : nat) (d : string) (w' : Program.world) :
  Program.tick k (Program.perform_all acts (snd Program.main_shown))
    = Some (Some (Streamer.Emit d), w') ->
  Program.unwired w'
  /\ Program.widgets w' = Program.widgets (snd Program.main_shown)
  /\ UI.labels_of (Program.widgets w') (fst Program.main_shown)
     = UI.labels_of (Program.widgets (snd Program.main_shown))
                    (fst Program.main_shown).
Proof.
  intros Ht.
  destruct (perform_all_unwired acts _ main_shown_unwired) as [Hu Hwid].
  destruct (tick_unwired _ _ _ _ Hu Ht) as [Hwid' Hstr].
  assert (Heq : Program.widgets w' = Program.widgets (snd Program.main_shown))
    by congruence.
  split; [unfold Program.unwired; by rewrite Hstr |].
  split; [done | by rewrite Heq].
Qed.

Lemma dataChanged_changes_no_widget_witness :
  Program.tick 0
    (Program.perform_all
       [Program.NewDataStreamer; Program.StartStreaming 0;
        Program.Tick 0; Program.Tick 0]
       (snd Program.main_shown))
  = Some (Some (Streamer.Emit "Data update: 0"),
          Program.perform_all
            [Program.NewDataStreamer; Program.StartStreaming 0;
             Program.Tick 0; Program.Tick 0; Program.Tick 0]
            (snd Program.main_shown))
  /\ Program.widgets
       (Program.perform_all
          [Program.NewDataStreamer; Program.StartStreaming 0;
           Program.Tick 0; Program.Tick 0; Program.Tick 0]
          (snd Program.main_shown))
     = Program.widgets (snd Program.main_shown).
Proof.
  assert (H : Program.tick 0
    (Program.perform_all
       [Program.NewDataStreamer; Program.StartStreaming 0;
        Program.Tick 0; Program.Tick 0]
       (snd Program.main_shown))
  = Some (Some (Streamer.Emit "Data update: 0"),
          Program.perform_all
            [Program.NewDataStreamer; Program.StartStreaming 0;
             Program.Tick 0; Program.Tick 0; Program.Tick 0]
            (snd Program.main_shown))) by (vm_compute; reflexivity).
  split; [exact H |].
  exact (proj1 (proj2 (dataChanged_changes_no_widget _ _ _ _ H))).
Defined.

(** ** main *)

Lemma exec_no_thread (schedule : list nat) (w : Program.world) :
  Program.threads w = [] -> Program.exec schedule w = ([], w).
Proof.
  intros Hw. induction schedule as [|k schedule IH]; [done|].
  cbn [Program.exec]. unfold Program.tick. by rewrite Hw.
Qed.

(** C10. [main] makes the application and the window, shows the window and
    enters the event loop: the process has no streamer and no thread other
    than the main one, and however long the event loop runs, no thread
    performs an effect, so [dataChanged] is never emitted, and the process
    stays as it was when the window was shown. *)
Theorem main_streams_nothing (schedule : list nat) :
  Program.main schedule = ([], snd Program.main_shown)
  /\ Program.streamers (snd Program.main_shown) = []
  /\ Program.threads (snd Program.main_shown) = []
  /\ Program.app (snd Program.main_shown) = true
  /\ Program.widgets (snd Program.main_shown)
     = snd (UI.show (fst (UI.new_SimpleUI UI.empty_heap))
                    (snd (UI.new_SimpleUI UI.empty_heap)))
  /\ (UI.visible <$> UI.get_widget (Program.widgets (snd Program.main_shown))
                                   (fst Program.main_shown)) = Some true.
Proof.
  split; [by apply exec_no_thread |].
  do 4 (split; [vm_compute; reflexivity |]).
  vm_compute; reflexivity.
Qed.

(** * Further properties *)

(** ** The thread: what it holds and what it emits *)

Lemma wrap_range (z : Z) : Int.in_range (Int.wrap z).
Proof.
  unfold Int.in_range, Int.INT_MIN, Int.INT_MAX, Int.wrap.
  pose proof (Z.mod_pos_bound (z + 2 ^ 31) (2 ^ 32)). lia.
Qed.

(** X1. In every state the thread reaches, the counter is within the range
    of [int], and when the thread is about to emit, [data] is the payload
    of an [int] [v] and the counter is the increment of [v]; so every
    string it emits is "Data update: " followed by the decimal form of a
    number in the range of [int], never the undeclared [data]. *)
Theorem thread_invariant (d : Z) (t : Streamer.thread) :
  Streamer.reachable d t ->
  Int.in_range (Streamer.counter t)
  /\ (Streamer.at_pc t = Streamer.AtEmit ->
      exists v, Int.in_range v
                /\ Streamer.data t = Streamer.payload v
                /\ Streamer.counter t = Int.wrap (v + 1))
  /\ (forall s t', Streamer.step d t = Some (Some (Streamer.Emit s), t') ->
        exists v, Int.in_range v /\ s = Streamer.payload v).
Proof.
  intros Ht.
  assert (Hinv : Int.in_range (Streamer.counter t)
                 /\ (Streamer.at_pc t = Streamer.AtEmit ->
                     exists v, Int.in_range v
                               /\ Streamer.data t = Streamer.payload v
                               /\ Streamer.counter t = Int.wrap (v + 1))).
  { induction Ht as [|t o t' Ht [IHc IHd] Hstep].
    - split; [vm_compute; split; discriminate | discriminate].
    - unfold Streamer.step in Hstep.
      destruct t as [p c s]. cbn [Streamer.at_pc Streamer.counter Streamer.data] in *.
      destruct p; cbn in Hstep; try (injection Hstep as <- <-; cbn;
                                       split; [done | discriminate]);
        [| discriminate].
      injection Hstep as <- <-. cbn. split; [apply wrap_range |].
      intros _. exists c. split; [done |]. split; [apply arg_int_format | done]. }
  destruct Hinv as [Hc Hd]. split; [done |]. split; [done |].
  intros s t' Hstep. unfold Streamer.step in Hstep.
  destruct (Streamer.at_pc t) eqn:Hpc; cbn in Hstep; try discriminate.
  injection Hstep as <- _.
  destruct (Hd eq_refl) as (v & Hv & Hdata & _). eauto.
Qed.

Lemma thread_invariant_witness :
  Streamer.reachable Streamer.DELAY
    (Streamer.mkThread Streamer.AtEmit 1 "Data update: 0")
  /\ Int.in_range 1
  /\ exists v, Int.in_range v /\ "Data update: 0" = Streamer.payload v.
Proof.
  assert (H : Streamer.reachable Streamer.DELAY
                (Streamer.mkThread Streamer.AtEmit 1 "Data update: 0")).
  { apply (Streamer.reach_step _
             (Streamer.mkThread Streamer.AtArg 0 EmptyString) None);
      [| vm_compute; reflexivity].
    apply (Streamer.reach_step _ Streamer.spawn None); [| reflexivity].
    apply Streamer.reach_spawn. }
  split; [exact H |].
  split; [exact (proj1 (thread_invariant _ _ H)) |].
  exact (proj2 (proj2 (thread_invariant _ _ H)) "Data update: 0"
           (Streamer.mkThread Streamer.AtSleep 1 "Data update: 0") eq_refl).
Defined.

Lemma wrap_eq_inv (a b : Z) :
  Int.wrap a = Int.wrap b -> - 2 ^ 32 < a - b < 2 ^ 32 -> a = b.
Proof.
  unfold Int.wrap. intros H Hab.
  assert (Hm : (a + 2 ^ 31) mod 2 ^ 32 = (b + 2 ^ 31) mod 2 ^ 32) by lia.
  pose proof (Z.div_mod (a + 2 ^ 31) (2 ^ 32) ltac:(lia)) as Ha.
  pose proof (Z.div_mod (b + 2 ^ 31) (2 ^ 32) ltac:(lia)) as Hb.
  rewrite Hm in Ha.
  assert (Hq : (a + 2 ^ 31) / 2 ^ 32 = (b + 2 ^ 31) / 2 ^ 32) by nia.
  rewrite Hq in Ha. lia.
Qed.

Lemma wrap_period (a : Z) : Int.wrap (a + 2 ^ 32) = Int.wrap a.
Proof.
  unfold Int.wrap. f_equal.
  replace (a + 2 ^ 32 + 2 ^ 31) with (a + 2 ^ 31 + 1 * 2 ^ 32) by lia.
  apply Z_mod_plus_full.
Qed.

(** X2. Two emissions of a thread less than 2^32 places apart carry
    different payloads, and the emission 2^32 places after another one
    carries the same payload: the payloads repeat with period 2^32 and
    not earlier. *)
Theorem emissions_repeat_with_period :
  (forall k1 k2 : nat,
      k1 <> k2 -> - 2 ^ 32 < Z.of_nat k1 - Z.of_nat k2 < 2 ^ 32 ->
      Streamer.emission k1 <> Streamer.emission k2)
  /\ (forall k : nat,
        Streamer.emission (k + Z.to_nat (2 ^ 32)) = Streamer.emission k).
Proof.
  split.
  - intros k1 k2 Hne Hd. rewrite !emission_eq. intros H.
    apply (inj Some), payload_inj, wrap_eq_inv in H; [lia | done].
  - intros k. rewrite !emission_eq, Nat2Z.inj_add, Z2Nat.id by lia.
    by rewrite wrap_period.
Qed.

Lemma emissions_repeat_with_period_witness :
  3%nat <> 5%nat
  /\ - 2 ^ 32 < Z.of_nat 3 - Z.of_nat 5 < 2 ^ 32
  /\ Streamer.emission 3 <> Streamer.emission 5.
Proof.
  assert (H1 : 3%nat <> 5%nat) by discriminate.
  assert (H2 : - 2 ^ 32 < Z.of_nat 3 - Z.of_nat 5 < 2 ^ 32)
    by (vm_compute; split; reflexivity).
  split; [exact H1 |]. split; [exact H2 |].
  exact (proj1 emissions_repeat_with_period 3%nat 5%nat H1 H2).
Defined.

Lemma run_from_head_short (d c : Z) (s : string) (r : nat) :
  (r < 4)%nat ->
  length (Streamer.emitted
            (fst (Streamer.run d r (Streamer.mkThread Streamer.AtWhile c s))))
  = ((r + 1) / 4)%nat.
Proof.
  intros Hr.
  destruct r as [|[|[|[|r]]]]; [reflexivity | reflexivity | reflexivity | | lia].
  reflexivity.
Qed.

(** X3. After [m] statements of the thread, for any [m], exactly
    [(m + 1) / 4] emissions have happened: the emission is the third of the
    four statements of an iteration, and no statement is ever skipped. *)
Theorem emissions_after_statements (d : Z) (m : nat) :
  length (Streamer.emitted (fst (Streamer.run d m Streamer.spawn)))
  = ((m + 1) / 4)%nat.
Proof.
  pose proof (Nat.div_mod_eq m 4) as Hm.
  pose proof (Nat.mod_upper_bound m 4 ltac:(lia)) as Hr.
  set (q := (m / 4)%nat) in *. set (r := (m mod 4)%nat) in *.
  rewrite Hm at 1. rewrite run_add. cbn [fst].
  rewrite spawn_head.
  destruct (run_iterations d q 0 EmptyString) as [s' Hq]. rewrite Hq.
  cbn [fst snd]. unfold Streamer.emitted at 1. rewrite omap_app, length_app.
  fold (Streamer.emitted (Streamer.beats d 0 q)).
  rewrite emitted_beats, length_map, length_seq.
  fold (Streamer.emitted
          (fst (Streamer.run d r
                  (Streamer.mkThread Streamer.AtWhile
                     (Int.wrap (Z.of_nat (0 + q))) s')))).
  rewrite run_from_head_short by done.
  replace (m + 1)%nat with ((r + 1) + q * 4)%nat by lia.
  rewrite Nat.div_add by lia. lia.
Qed.

(** ** Threads in the process *)

Lemma deliver_keeps (this : nat) (o : option Streamer.effect) (w : Program.world) :
  Program.threads (Program.deliver this o w) = Program.threads w
  /\ Program.streamers (Program.deliver this o w) = Program.streamers w
  /\ (Program.unwired w ->
      Program.widgets (Program.deliver this o w) = Program.widgets w).
Proof.
  unfold Program.deliver. destruct o as [[d|ms]|]; try done.
  destruct (Program.streamers w !! this) as [s|] eqn:Hs; [| done].
  cbn. split; [done |]. split; [done |]. intros Hw.
  unfold Program.unwired in Hw. rewrite Forall_lookup in Hw.
  unfold Program.emit_dataChanged. by rewrite (Hw _ _ Hs).
Qed.

Lemma exec_finished (k this n : nat) (t : Streamer.thread) (w : Program.world) :
  Program.threads w !! k = Some (this, t) ->
  Streamer.step Streamer.DELAY t = None ->
  Program.exec (replicate n k) w = ([], w).
Proof.
  intros Hk Hstep. induction n as [|n IH]; [done |].
  cbn [replicate Program.exec]. unfold Program.tick. by rewrite Hk, Hstep.
Qed.

(** X4. In a process, the statements of one thread have the effects that
    the loop has when run alone, whatever the other threads are: letting
    thread [k] execute [n] times performs the effects of [n] statements of
    its loop, leaves thread [k] in the state those statements reach and
    every other thread, and the streamers, as they were; when no slot is
    connected the widgets are as they were too. *)
Theorem thread_in_process_runs_its_loop
    (n k this : nat) (t : Streamer.thread) (w : Program.world) :
  Program.threads w !! k = Some (this, t) ->
  fst (Program.exec (replicate n k) w) = fst (Streamer.run Streamer.DELAY n t)
  /\ Program.threads (snd (Program.exec (replicate n k) w))
     = <[k := (this, snd (Streamer.run Streamer.DELAY n t))]> (Program.threads w)
  /\ Program.streamers (snd (Program.exec (replicate n k) w))
     = Program.streamers w
  /\ (Program.unwired w ->
      Program.widgets (snd (Program.exec (replicate n k) w)) = Program.widgets w).
Proof.
  revert t w. induction n as [|n IH]; intros t w Hk.
  - cbn. by rewrite list_insert_id.
  - cbn [replicate Program.exec Streamer.run]. unfold Program.tick. rewrite Hk.
    destruct (Streamer.step Streamer.DELAY t) as [[o t']|] eqn:Hstep.
    + set (w1 := Program.with_threads (<[k := (this, t')]> (Program.threads w)) w).
      destruct (deliver_keeps this o w1) as (Hth & Hst & Hwid).
      assert (Hk' : Program.threads (Program.deliver this o w1) !! k
                    = Some (this, t')).
      { rewrite Hth. subst w1. cbn. apply list_lookup_insert_eq.
        by eapply lookup_lt_Some. }
      destruct (IH t' _ Hk') as (IHe & IHt & IHs & IHw).
      destruct (Program.exec (replicate n k) (Program.deliver this o w1))
        as [l w2].
      destruct (Streamer.run Streamer.DELAY n t') as [l' t2].
      cbn [fst snd] in *. subst l'.
      split; [done |]. split.
      { rewrite IHt, Hth. subst w1. cbn. apply list_insert_insert_eq. }
      split; [by rewrite IHs, Hst |].
      intros Hw. rewrite IHw.
      * by apply Hwid.
      * unfold Program.unwired. by rewrite Hst.
    + rewrite (exec_finished k this n t w Hk Hstep). cbn.
      by rewrite list_insert_id.
Qed.

Lemma thread_in_process_runs_its_loop_witness :
  Program.threads
    (Program.perform_all
       [Program.NewDataStreamer; Program.StartStreaming 0;
        Program.StartStreaming 0; Program.Tick 0]
       (snd Program.main_shown)) !! 1%nat
  = Some (0%nat, Streamer.spawn)
  /\ fst (Program.exec (replicate 7 1%nat)
            (Program.perform_all
               [Program.NewDataStreamer; Program.StartStreaming 0;
                Program.StartStreaming 0; Program.Tick 0]
               (snd Program.main_shown)))
     = fst (Streamer.run Streamer.DELAY 7 Streamer.spawn).
Proof.
  assert (H : Program.threads
    (Program.perform_all
       [Program.NewDataStreamer; Program.StartStreaming 0;
        Program.StartStreaming 0; Program.Tick 0]
       (snd Program.main_shown)) !! 1%nat
  = Some (0%nat, Streamer.spawn)) by (vm_compute; reflexivity).
  split; [exact H |].
  exact (proj1 (thread_in_process_runs_its_loop 7 1 0 _ _ H)).
Defined.

Lemma filter_insert_length {A} (P : A -> Prop) `{!forall x, Decision (P x)}
    (l : list A) (k : nat) (x y : A) :
  l !! k = Some x -> (P x <-> P y) ->
  length (filter P (<[k := y]> l)) = length (filter P l).
Proof.
  revert k. induction l as [|a l IH]; intros k Hk Hxy; [done |].
  destruct k as [|k]; cbn in Hk.
  - injection Hk as ->. change (<[0%nat := y]> (x :: l)) with (y :: l).
    rewrite !filter_cons.
    destruct (decide (P y)), (decide (P x)); tauto || done.
  - change (<[S k := y]> (a :: l)) with (a :: <[k := y]> l).
    rewrite !filter_cons. specialize (IH k Hk Hxy).
    destruct (decide (P a)); [cbn [length]; f_equal |]; exact IH.
Qed.

Lemma loops_of_perform (this : nat) (a : Program.action) (w : Program.world) :
  Forall (fun p => Streamer.reachable Streamer.DELAY (snd p)) (Program.threads w) ->
  Program.loops_of this (Program.perform a w)
  = (Program.starts_of this [a] + Program.loops_of this w)%nat.
Proof.
  intros Hw. unfold Program.starts_of.
  destruct a as [|this'|k]; cbn [Program.perform].
  - by rewrite filter_cons_False by discriminate.
  - destruct (decide (this' = this)) as [-> | Hne].
    + rewrite filter_cons_True by done. apply loops_of_startStreaming.
    + rewrite filter_cons_False by congruence.
      unfold Program.loops_of. rewrite startStreaming_threads, filter_app.
      rewrite (filter_cons_False _ (this', Streamer.spawn)) by (cbn; tauto).
      by rewrite app_nil_r.
  - rewrite filter_cons_False by discriminate. cbn.
    destruct (Program.tick k w) as [[o w']|] eqn:Ht; [| done].
    destruct (tick_threads _ _ _ _ Ht) as (this0 & t & t' & Hk & Hstep & Hth).
    unfold Program.loops_of. rewrite Hth.
    apply (filter_insert_length _ _ _ (this0, t)); [done |].
    rewrite Forall_lookup in Hw. specialize (Hw _ _ Hk). cbn in Hw.
    pose proof (reachable_in_loop _ _ Hw).
    pose proof (reachable_in_loop _ _ (Streamer.reach_step _ _ _ _ Hw Hstep)).
    cbn. tauto.
Qed.

Lemma loops_of_perform_all (this : nat) (acts : list Program.action)
    (w : Program.world) :
  Forall (fun p => Streamer.reachable Streamer.DELAY (snd p)) (Program.threads w) ->
  Program.loops_of this (Program.perform_all acts w)
  = (Program.starts_of this acts + Program.loops_of this w)%nat.
Proof.
  revert w. induction acts as [|a acts IH]; intros w Hw; [done |].
  change (Program.perform_all (a :: acts) w)
    with (Program.perform_all acts (Program.perform a w)).
  rewrite IH by (by apply perform_threads_reachable).
  rewrite loops_of_perform by done.
  unfold Program.starts_of.
  change (a :: acts) with ([a] ++ acts). rewrite filter_app, length_app. lia.
Qed.

(** X5. Whatever is done in the process after [main] has shown the window
    (streamers made, [startStreaming] called, threads running, in any
    order), the production loops of a streamer that are running are as
    many as the calls of [startStreaming] made on it: no call is refused
    and no loop ever ends. *)
Theorem running_loops_equal_calls (this : nat) (acts : list Program.action) :
  Program.loops_of this (Program.perform_all acts (snd Program.main_shown))
  = Program.starts_of this acts.
Proof.
  rewrite loops_of_perform_all by constructor.
  change (Program.loops_of this (snd Program.main_shown)) with 0%nat. lia.
Qed.

(** ** The objects of the window *)

Lemma new_SimpleUI_holds (h : UI.heap) :
  UI.holds_SimpleUI (snd (UI.new_SimpleUI h)) (fst (UI.new_SimpleUI h))
  /\ fst (UI.new_SimpleUI h) = UI.next h
  /\ UI.next (snd (UI.new_SimpleUI h)) = (12 + UI.next h)%nat.
Proof.
  destruct h as [m n]. rewrite new_SimpleUI_builds. cbn [fst snd UI.next].
  split; [| done]. intros i o Hi. cbn [UI.objects]. by apply store_lookup.
Qed.

Ltac holds_lookup Hh H i :=
  pose proof (Hh i _ eq_refl) as H; cbn [Nat.add] in H.

Ltac holds_lookups Hh :=
  let H0 := fresh "H0" in let H1 := fresh "H1" in let H2 := fresh "H2" in
  let H3 := fresh "H3" in let H4 := fresh "H4" in let H5 := fresh "H5" in
  let H6 := fresh "H6" in let H7 := fresh "H7" in let H8 := fresh "H8" in
  let H9 := fresh "H9" in let H10 := fresh "H10" in let H11 := fresh "H11" in
  holds_lookup Hh H0 0%nat; holds_lookup Hh H1 1%nat; holds_lookup Hh H2 2%nat;
  holds_lookup Hh H3 3%nat; holds_lookup Hh H4 4%nat; holds_lookup Hh H5 5%nat;
  holds_lookup Hh H6 6%nat; holds_lookup Hh H7 7%nat; holds_lookup Hh H8 8%nat;
  holds_lookup Hh H9 9%nat; holds_lookup Hh H10 10%nat;
  holds_lookup Hh H11 11%nat.

Ltac read_heap :=
  repeat first
    [ progress cbn [UI.layout_widgets UI.layout_layouts UI.layout_shape
                    UI.items UI.direction UI.layout flat_map map app
                    omap list_omap forallb UI.item_ok andb]
    | progress unfold UI.get_layout, UI.get_label, UI.get_widget, UI.get_font,
                      UI.layout_ok
    | match goal with
      | H : UI.objects ?h !! ?p = Some _ |- context [UI.objects ?h !! ?p] =>
          rewrite H
      end ].

(** What a heap that holds a [SimpleUI] at [this] shows of it. *)
Lemma holds_SimpleUI_reads (h : UI.heap) (this : UI.ptr) :
  UI.holds_SimpleUI h this -> (3 <= UI.next h)%nat ->
  UI.labels_of h this
  = [ UI.mkLabel (Some (750, 100)) (UI.mkFont (Some 40) true) UI.street_text
        UI.AlignCenter None;
      UI.mkLabel (Some (500, 500)) UI.QFont_default EmptyString
        UI.AlignLeftVCenter (Some "Arrow_Left.png");
      UI.message_label UI.high_text;
      UI.message_label UI.medium_text;
      UI.message_label UI.low_text ]
  /\ UI.window_shape h this
     = UI.Box UI.Vertical
         [ UI.Box UI.Horizontal
             [ UI.Spring;
               UI.Shown (UI.mkLabel (Some (750, 100)) (UI.mkFont (Some 40) true)
                           UI.street_text UI.AlignCenter None);
               UI.Spring ];
           UI.Spring;
           UI.Box UI.Horizontal
             [ UI.Shown (UI.mkLabel (Some (500, 500)) UI.QFont_default
                           EmptyString UI.AlignLeftVCenter
                           (Some "Arrow_Left.png"));
               UI.Spring;
               UI.Box UI.Vertical
                 [ UI.Shown (UI.message_label UI.high_text);
                   UI.Shown (UI.message_label UI.medium_text);
                   UI.Shown (UI.message_label UI.low_text) ] ] ]
  /\ UI.layout_widgets (UI.next h) h (S this)
     = [(7 + this)%nat; (8 + this)%nat; (9 + this)%nat; (10 + this)%nat;
        (11 + this)%nat]
  /\ UI.layout_layouts (UI.next h) h (S this)
     = [(1 + this)%nat; (2 + this)%nat; (3 + this)%nat; (4 + this)%nat]
  /\ forallb (UI.layout_ok h) (UI.layout_layouts (UI.next h) h (S this)) = true.
Proof.
  intros Hh Hnext. holds_lookups Hh.
  unfold UI.labels_of, UI.window_shape.
  destruct (UI.next h) as [|[|[|f]]]; try lia.
  repeat split; read_heap; reflexivity.
Qed.

(** X6. On any heap, the window the constructor leaves shows a column of a
    top row, a spring and a bottom row: the top row is the street-name
    label between two springs; the bottom row is the arrow image, a
    spring, and the column of the high, medium and low priority labels,
    in that order. No item of any layout is missing. *)
Theorem simple_ui_arrangement (h : UI.heap) :
  UI.window_shape (snd (UI.new_SimpleUI h)) (fst (UI.new_SimpleUI h))
  = UI.Box UI.Vertical
      [ UI.Box UI.Horizontal
          [ UI.Spring;
            UI.Shown (UI.mkLabel (Some (750, 100)) (UI.mkFont (Some 40) true)
                        UI.street_text UI.AlignCenter None);
            UI.Spring ];
        UI.Spring;
        UI.Box UI.Horizontal
          [ UI.Shown (UI.mkLabel (Some (500, 500)) UI.QFont_default
                        EmptyString UI.AlignLeftVCenter (Some "Arrow_Left.png"));
            UI.Spring;
            UI.Box UI.Vertical
              [ UI.Shown (UI.message_label UI.high_text);
                UI.Shown (UI.message_label UI.medium_text);
                UI.Shown (UI.message_label UI.low_text) ] ] ].
Proof.
  destruct (new_SimpleUI_holds h) as (Hh & _ & Hn).
  apply (holds_SimpleUI_reads _ _ Hh). lia.
Qed.

(** X7. On any heap, the constructor gives the street-name label a 40 point
    font, the size 750 x 100 and centred alignment, the three message
    labels a 24 point font and the size 500 x 100, and the image label the
    default font and the size 500 x 500. The four text labels are
    underlined: [setUnderline(&free)] passes the address of a function,
    which converts to [true]. *)
Theorem simple_ui_typography (h : UI.heap) :
  map (fun l => (UI.fixedSize l, UI.pointSize (UI.font l),
                 UI.underline (UI.font l), UI.alignment l))
      (UI.labels_of (snd (UI.new_SimpleUI h)) (fst (UI.new_SimpleUI h)))
  = [ (Some (750, 100), Some 40, true, UI.AlignCenter);
      (Some (500, 500), None, false, UI.AlignLeftVCenter);
      (Some (500, 100), Some 24, true, UI.AlignLeftVCenter);
      (Some (500, 100), Some 24, true, UI.AlignLeftVCenter);
      (Some (500, 100), Some 24, true, UI.AlignLeftVCenter) ].
Proof.
  destruct (new_SimpleUI_holds h) as (Hh & _ & Hn).
  destruct (holds_SimpleUI_reads _ _ Hh ltac:(lia)) as [-> _]. reflexivity.
Qed.

Lemma NoDup_offsets (n : nat) :
  NoDup [n; (1 + n)%nat; (2 + n)%nat; (3 + n)%nat; (4 + n)%nat; (7 + n)%nat;
         (8 + n)%nat; (9 + n)%nat; (10 + n)%nat; (11 + n)%nat].
Proof.
  repeat (apply NoDup_cons; split;
          [rewrite ?elem_of_cons, elem_of_nil; lia |]).
  apply NoDup_nil_2.
Qed.

(** X8. On any heap, the constructor returns the next free address, takes
    the twelve addresses from there and changes no object at any other
    address. The window, its four layouts and its five labels are ten
    different objects, and every item of every layout points to a live
    label or layout. The two fonts made by [*new QFont()] stay in the
    heap, and neither the window nor any layout refers to them. *)
Theorem simple_ui_allocation (h : UI.heap) :
  fst (UI.new_SimpleUI h) = UI.next h
  /\ UI.next (snd (UI.new_SimpleUI h)) = (12 + UI.next h)%nat
  /\ (forall p : UI.ptr,
        (p < UI.next h \/ 12 + UI.next h <= p)%nat ->
        UI.objects (snd (UI.new_SimpleUI h)) !! p = UI.objects h !! p)
  /\ NoDup (fst (UI.new_SimpleUI h)
            :: UI.layout_layouts (UI.next (snd (UI.new_SimpleUI h)))
                 (snd (UI.new_SimpleUI h)) (S (fst (UI.new_SimpleUI h)))
            ++ UI.layout_widgets (UI.next (snd (UI.new_SimpleUI h)))
                 (snd (UI.new_SimpleUI h)) (S (fst (UI.new_SimpleUI h))))
  /\ forallb (UI.layout_ok (snd (UI.new_SimpleUI h)))
       (UI.layout_layouts (UI.next (snd (UI.new_SimpleUI h)))
          (snd (UI.new_SimpleUI h)) (S (fst (UI.new_SimpleUI h)))) = true
  /\ (forall q : UI.ptr,
        q = (5 + UI.next h)%nat \/ q = (6 + UI.next h)%nat ->
        UI.get_font (snd (UI.new_SimpleUI h)) q = Some UI.QFont_default
        /\ q ∉ fst (UI.new_SimpleUI h)
               :: UI.layout_layouts (UI.next (snd (UI.new_SimpleUI h)))
                    (snd (UI.new_SimpleUI h)) (S (fst (UI.new_SimpleUI h)))
               ++ UI.layout_widgets (UI.next (snd (UI.new_SimpleUI h)))
                    (snd (UI.new_SimpleUI h)) (S (fst (UI.new_SimpleUI h)))).
Proof.
  destruct (new_SimpleUI_holds h) as (Hh & Hthis & Hn).
  destruct (holds_SimpleUI_reads _ _ Hh ltac:(lia)) as (_ & _ & Hw & Hl & Hok).
  rewrite Hw, Hl, Hthis in *.
  split; [done |]. split; [done |]. split.
  { intros p Hp. destruct h as [m n]. rewrite new_SimpleUI_builds.
    cbn [snd UI.objects UI.next] in *. apply store_frame.
    change (length (UI.SimpleUI_objects n)) with 12%nat. lia. }
  split; [apply NoDup_offsets |]. split; [done |].
  intros q Hq. split.
  - holds_lookups Hh. unfold UI.get_font.
    destruct Hq as [-> | ->]; cbn [Nat.add];
      match goal with
      | H : UI.objects ?h !! ?p = Some _ |- context [UI.objects ?h !! ?p] =>
          rewrite H
      end; reflexivity.
  - cbn [app]. rewrite !not_elem_of_cons. rewrite elem_of_nil. lia.
Qed.

Lemma simple_ui_allocation_witness :
  (3 < UI.next (snd (UI.new_SimpleUI UI.empty_heap))
   \/ 12 + UI.next (snd (UI.new_SimpleUI UI.empty_heap)) <= 3)%nat
  /\ UI.objects (snd (UI.new_SimpleUI (snd (UI.new_SimpleUI UI.empty_heap)))) !! 3%nat
     = UI.objects (snd (UI.new_SimpleUI UI.empty_heap)) !! 3%nat
  /\ UI.get_font (snd (UI.new_SimpleUI UI.empty_heap)) 5%nat
     = Some UI.QFont_default.
Proof.
  assert (H : (3 < UI.next (snd (UI.new_SimpleUI UI.empty_heap))
               \/ 12 + UI.next (snd (UI.new_SimpleUI UI.empty_heap)) <= 3)%nat)
    by (left; vm_compute; lia).
  split; [exact H |].
  split.
  - exact (proj1 (proj2 (proj2 (simple_ui_allocation
                                  (snd (UI.new_SimpleUI UI.empty_heap)))))
             3%nat H).
  - exact (proj1 (proj2 (proj2 (proj2 (proj2 (proj2
             (simple_ui_allocation UI.empty_heap))))) 5%nat
             (or_introl eq_refl))).
Defined.

Lemma holds_SimpleUI_kept (h : UI.heap) (this : UI.ptr) :
  UI.holds_SimpleUI h this -> (12 + this <= UI.next h)%nat ->
  UI.holds_SimpleUI (snd (UI.new_SimpleUI h)) this.
Proof.
  intros Hh Hn i o Hi. rewrite new_SimpleUI_frame; [by apply Hh |].
  apply lookup_lt_Some in Hi.
  change (length (UI.SimpleUI_objects this)) with 12%nat in Hi. lia.
Qed.

(** X9. A window built earlier is not disturbed by the construction of
    another one: on any heap, after two constructor calls the two windows
    are different objects with no label in common, and the first window
    has the widget state and shows the arrangement it had before the
    second call; the second shows the same arrangement. *)
Theorem second_window_leaves_first (h : UI.heap) :
  fst (UI.new_SimpleUI h) <> fst (UI.new_SimpleUI (snd (UI.new_SimpleUI h)))
  /\ UI.get_widget (snd (UI.new_SimpleUI (snd (UI.new_SimpleUI h))))
                   (fst (UI.new_SimpleUI h))
     = UI.get_widget (snd (UI.new_SimpleUI h)) (fst (UI.new_SimpleUI h))
  /\ UI.window_shape (snd (UI.new_SimpleUI (snd (UI.new_SimpleUI h))))
                     (fst (UI.new_SimpleUI h))
     = UI.window_shape (snd (UI.new_SimpleUI h)) (fst (UI.new_SimpleUI h))
  /\ UI.window_shape (snd (UI.new_SimpleUI (snd (UI.new_SimpleUI h))))
                     (fst (UI.new_SimpleUI (snd (UI.new_SimpleUI h))))
     = UI.window_shape (snd (UI.new_SimpleUI h)) (fst (UI.new_SimpleUI h))
  /\ (forall p : UI.ptr,
        p ∈ UI.layout_widgets
              (UI.next (snd (UI.new_SimpleUI (snd (UI.new_SimpleUI h)))))
              (snd (UI.new_SimpleUI (snd (UI.new_SimpleUI h))))
              (S (fst (UI.new_SimpleUI h))) ->
        p ∉ UI.layout_widgets
              (UI.next (snd (UI.new_SimpleUI (snd (UI.new_SimpleUI h)))))
              (snd (UI.new_SimpleUI (snd (UI.new_SimpleUI h))))
              (S (fst (UI.new_SimpleUI (snd (UI.new_SimpleUI h)))))).
Proof.
  destruct (new_SimpleUI_holds h) as (Hh1 & Ht1 & Hn1).
  destruct (new_SimpleUI_holds (snd (UI.new_SimpleUI h))) as (Hh2 & Ht2 & Hn2).
  pose proof (holds_SimpleUI_kept _ _ Hh1 ltac:(lia)) as Hh12.
  destruct (holds_SimpleUI_reads _ _ Hh1 ltac:(lia)) as (_ & Hs1 & _).
  destruct (holds_SimpleUI_reads _ _ Hh2 ltac:(lia)) as (_ & Hs2 & Hw2 & _).
  destruct (holds_SimpleUI_reads _ _ Hh12 ltac:(lia)) as (_ & Hs12 & Hw12 & _).
  split; [lia |]. split.
  { unfold UI.get_widget. rewrite new_SimpleUI_frame by lia. reflexivity. }
  split; [by rewrite Hs12, Hs1 |]. split; [by rewrite Hs2, Hs1 |].
  intros p. rewrite Hw12, Hw2, Ht2, Hn1, Ht1.
  rewrite !elem_of_cons, !elem_of_nil. lia.
Qed.

Lemma second_window_leaves_first_witness :
  7%nat ∈ UI.layout_widgets
            (UI.next (snd (UI.new_SimpleUI (snd (UI.new_SimpleUI UI.empty_heap)))))
            (snd (UI.new_SimpleUI (snd (UI.new_SimpleUI UI.empty_heap))))
            (S (fst (UI.new_SimpleUI UI.empty_heap)))
  /\ 7%nat ∉ UI.layout_widgets
               (UI.next (snd (UI.new_SimpleUI (snd (UI.new_SimpleUI UI.empty_heap)))))
               (snd (UI.new_SimpleUI (snd (UI.new_SimpleUI UI.empty_heap))))
               (S (fst (UI.new_SimpleUI (snd (UI.new_SimpleUI UI.empty_heap))))).
Proof.
  assert (H : 7%nat ∈ UI.layout_widgets
            (UI.next (snd (UI.new_SimpleUI (snd (UI.new_SimpleUI UI.empty_heap)))))
            (snd (UI.new_SimpleUI (snd (UI.new_SimpleUI UI.empty_heap))))
            (S (fst (UI.new_SimpleUI UI.empty_heap)))).
  { vm_compute. apply list_elem_of_here. }
  split; [exact H |].
  exact (proj2 (proj2 (proj2 (proj2 (second_window_leaves_first UI.empty_heap))))
           7%nat H).
Defined.



